(** * Ingestion worker: idempotent job controller, annotation engine, persistence

  A shallow embedding of the ingestion worker's core
  (src/ingestion_worker) and the properties of its specification.

  Conventions of the embedding.
  - Python values that come out of [json.loads] are values of [pyval];
    a [dict] is an association list with first-match lookup.
  - A database table is an explicit value threaded through the functions
    that read or write it; SQL statements are translated clause by clause.
  - The language model, the tool handler, and the database driver's replies
    are section variables or explicit inputs: the code's behaviour is
    stated for every behaviour of these collaborators. *)

From Stdlib Require Import ZArith QArith Bool List Lia.
From stdpp Require Import gmap strings list sorting.

Close Scope Q_scope.
Open Scope string_scope.
Open Scope list_scope.
Open Scope Z_scope.

(** ** Python values *)

Module Py.

(** A Python [float]: a finite value (every finite double is a rational),
    an infinity, or NaN. Only comparisons are used by the code. *)
Inductive pyfloat : Type :=
| PFin (q : Q)
| PInf (negative : bool)
| PNaN.

#[local] Unset Elimination Schemes.
Inductive pyval : Type :=
| PNone
| PBool (b : bool)
| PInt (z : Z)
| PFloat (f : pyfloat)
| PStr (s : string)
| PList (l : list pyval)
| PDict (d : list (string * pyval)).

#[local] Set Elimination Schemes.

Definition dict : Type := list (string * pyval).

(** [d.get(k)] / [d[k]] / [k in d] *)
Fixpoint get (k : string) (d : dict) : option pyval :=
  match d with
  | [] => None
  | (k', v) :: d' => if String.eqb k k' then Some v else get k d'
  end.

Definition contains (k : string) (d : dict) : bool :=
  match get k d with Some _ => true | None => false end.

(** [isinstance(v, int)]: [bool] is a subclass of [int]. *)
Definition isinstance_int (v : pyval) : bool :=
  match v with PInt _ | PBool _ => true | _ => false end.

(** [isinstance(v, (int, float))] *)
Definition isinstance_int_float (v : pyval) : bool :=
  match v with PInt _ | PBool _ | PFloat _ => true | _ => false end.

(** The integer denoted by an [int] ([True] is 1, [False] is 0). *)
Definition int_value (v : pyval) : option Z :=
  match v with
  | PInt z => Some z
  | PBool b => Some (Z.b2z b)
  | _ => None
  end.

(** The number denoted by an [int] or a [float], as a float for comparison
    (Python compares an int with a float exactly). *)
Definition num_value (v : pyval) : option pyfloat :=
  match v with
  | PInt z => Some (PFin (inject_Z z))
  | PBool b => Some (PFin (inject_Z (Z.b2z b)))
  | PFloat f => Some f
  | _ => None
  end.

(** [a <= b] on numbers: false as soon as one side is NaN. *)
Definition float_le (a b : pyfloat) : bool :=
  match a, b with
  | PNaN, _ | _, PNaN => false
  | PFin x, PFin y => Qle_bool x y
  | PInf true, _ => true
  | _, PInf false => true
  | _, _ => false
  end.

(** [lo <= v <= hi] for a value already known to be an int or a float;
    a non-number makes the test false. *)
Definition between (lo : Q) (v : pyval) (hi : Q) : bool :=
  match num_value v with
  | Some f => float_le (PFin lo) f && float_le f (PFin hi)
  | None => false
  end.

(** [k in s] on two strings: [k] occurs in [s]. *)
Fixpoint is_substring (k s : string) : bool :=
  String.prefix k s ||
  match s with
  | EmptyString => false
  | String _ s' => is_substring k s'
  end.

(** [k in l] for a string [k] and a list [l]: some element equals [k]. *)
Definition str_in_list (k : string) (l : list pyval) : bool :=
  existsb (fun x => match x with PStr s => String.eqb k s | _ => false end) l.

(** A [str] is held as its UTF-8 encoding. A byte of the form [10xxxxxx]
    continues the code point begun before it. *)
Definition continues (c : Ascii.ascii) : bool :=
  match c with
  | Ascii.Ascii _ _ _ _ _ _ b6 b7 => b7 && negb b6
  end.

(** [len(s)] on a [str]: the number of its code points. *)
Fixpoint len (s : string) : nat :=
  match s with
  | EmptyString => O
  | String c s' => if continues c then len s' else S (len s')
  end.

(** The string goes on with the rest of a code point. *)
Definition continued (s : string) : bool :=
  match s with
  | String c _ => continues c
  | EmptyString => false
  end.

(** The code points of a string, each with the bytes that encode it. *)
Fixpoint code_points (s : string) : list string :=
  match s with
  | EmptyString => []
  | String c s' =>
      match code_points s' with
      | cp :: rest =>
          if continued s' then String c cp :: rest
          else String c EmptyString :: cp :: rest
      | [] => [String c EmptyString]
      end
  end.

(** The characters of a string, as iteration over a [str] yields them. *)
Definition chars (s : string) : list pyval := map PStr (code_points s).

(** [for x in v]: the items a [for] loop visits, or [None] when [v] is not
    iterable (the loop raises [TypeError]). *)
Definition iterate (v : pyval) : option (list pyval) :=
  match v with
  | PList l => Some l
  | PDict d => Some (map (fun kv => PStr (fst kv)) d)
  | PStr s => Some (chars s)
  | PNone | PBool _ | PInt _ | PFloat _ => None
  end.

(** The exceptions that can leave [_process_segment], by class. *)
Inductive pyexn : Type :=
| TypeError
| AttributeError.

End Py.

Import Py.

(** ** Transcript segments (the dicts the workflow hands to the orchestrator) *)

Record segment : Type := mkSegment {
  seg_start : Q;
  seg_end : Q;
  seg_text : string;
  seg_lang : string
}.

(** ** Annotators (domain/agentic/annotators/word.py, phrase.py) *)

Module Annotators.

Definition required : list string :=
  ["segment_index"; "fine_id"; "span"; "rationale";
   "visual_comprehensibility"; "textual_comprehensibility"].

(** Value of [d[k]] for a key already known to be present. *)
Definition item (k : string) (d : dict) : pyval :=
  match get k d with Some v => v | None => PNone end.

(** [0 <= start < end <= text_len] on ints. *)
Definition span_in_range (start end_ : pyval) (text_len : Z) : bool :=
  match int_value start, int_value end_ with
  | Some s, Some e => (0 <=? s) && (s <? e) && (e <=? text_len)
  | _, _ => false
  end.

(** [WordAnnotator.validate_annotation(ann, segment)]. [text_len] is
    [len(segment["text"])], a number of characters; [len(...) == 0] on the
    rationale is read off the encoding, which is empty exactly when the
    string is. *)
Definition word_validate_annotation (ann : dict) (seg : segment) : bool :=
  if negb (forallb (fun k => contains k ann) required) then false else
  if negb (isinstance_int (item "segment_index" ann)) then false else
  if negb (isinstance_int (item "fine_id" ann)) then false else
  let v_comp := item "visual_comprehensibility" ann in
  let t_comp := item "textual_comprehensibility" ann in
  if negb (isinstance_int_float v_comp) || negb (between 0 v_comp 1) then false else
  if negb (isinstance_int_float t_comp) || negb (between 0 t_comp 1) then false else
  match item "span" ann with
  | PDict span =>
      if negb (contains "start" span) || negb (contains "end" span) then false else
      let start := item "start" span in
      let end_ := item "end" span in
      let text_len := Z.of_nat (len (seg_text seg)) in
      if negb (isinstance_int start) || negb (isinstance_int end_) then false else
      if negb (span_in_range start end_ text_len) then false else
      match item "rationale" ann with
      | PStr r => if (String.length r =? 0)%nat then false else true
      | _ => false
      end
  | _ => false
  end.

(** [PhraseAnnotator.validate_annotation(ann, segment)]: the source repeats
    the word annotator's checks line for line. *)
Definition phrase_validate_annotation (ann : dict) (seg : segment) : bool :=
  if negb (forallb (fun k => contains k ann) required) then false else
  if negb (isinstance_int (item "segment_index" ann)) then false else
  if negb (isinstance_int (item "fine_id" ann)) then false else
  let v_comp := item "visual_comprehensibility" ann in
  let t_comp := item "textual_comprehensibility" ann in
  if negb (isinstance_int_float v_comp) || negb (between 0 v_comp 1) then false else
  if negb (isinstance_int_float t_comp) || negb (between 0 t_comp 1) then false else
  match item "span" ann with
  | PDict span =>
      if negb (contains "start" span) || negb (contains "end" span) then false else
      let start := item "start" span in
      let end_ := item "end" span in
      let text_len := Z.of_nat (len (seg_text seg)) in
      if negb (isinstance_int start) || negb (isinstance_int end_) then false else
      if negb (span_in_range start end_ text_len) then false else
      match item "rationale" ann with
      | PStr r => if (String.length r =? 0)%nat then false else true
      | _ => false
      end
  | _ => false
  end.

Inductive annotator_kind : Type := word_sense | phrase_sense.

(** Dispatch on the annotator object passed to [_process_segment]. *)
Definition validate_annotation (k : annotator_kind) : dict -> segment -> bool :=
  match k with
  | word_sense => word_validate_annotation
  | phrase_sense => phrase_validate_annotation
  end.

End Annotators.

(** ** Language-model driver (infrastructure/vertex.py) *)

Module Vertex.

Record function_call : Type := mkFunctionCall {
  fc_name : string;
  fc_args : dict
}.

(** A part of a reply as the SDK exposes it: [part.function_call] is falsy
    when the part is not a function call; reading [part.text] raises when the
    part holds no text. *)
Record part : Type := mkPart {
  part_function_call : option function_call;
  part_text : option string
}.

Record candidate : Type := mkCandidate {
  content_parts : list part
}.

Record response : Type := mkResponse {
  candidates : list candidate
}.

(** [Part.from_function_response(name, response={"result": r})] and
    [Part.from_function_response(name, response={"error": str(e)})] *)
Inductive function_response : Type :=
| FunctionResult (name : string) (result : pyval)
| FunctionError (name : string) (error : string).

(** What [chat.send_message] is given: the prompt, or one list of function
    responses. *)
Inductive message : Type :=
| Prompt (text : string)
| FunctionResponses (parts : list function_response).

(** Why [call_with_tools] raised [VertexError]; [FinalLogFailed] is an
    exception raised while the final result is logged (lines 227-240), which
    the outer [except Exception] wraps like any other. *)
Inductive vertex_error : Type :=
| NoCandidates
| NoText
| InvalidJson
| SendFailed
| FinalLogFailed.

(** The calls the driver makes to its collaborators, in order. *)
Inductive event : Type :=
| Sent (m : message) (reply : option response)
| ToolCalled (fc : function_call) (outcome : pyval + string).

Definition max_iterations : nat := 10.

(** [_extract_function_calls(response)] *)
Definition _extract_function_calls (r : response) : list function_call :=
  concat (map (fun c => omap part_function_call (content_parts c)) (candidates r)).

(** The function response appended for one executed call. *)
Definition response_part (fc : function_call) (outcome : pyval + string)
  : function_response :=
  match outcome with
  | inl result => FunctionResult (fc_name fc) result
  | inr e => FunctionError (fc_name fc) e
  end.

(** A value that can be a key of a Python dict: lists and dicts cannot. *)
Definition hashable (v : pyval) : bool :=
  match v with
  | PList _ | PDict _ => false
  | PNone | PBool _ | PInt _ | PFloat _ | PStr _ => true
  end.

(** A value that [v[:120]] can be applied to. *)
Definition sliceable (v : pyval) : bool :=
  match v with
  | PStr _ | PList _ => true
  | PNone | PBool _ | PInt _ | PFloat _ | PDict _ => false
  end.

(** Lines 235-240, for one item of the final result: [ann.get('fine_id')],
    [fine_id_to_lemma.get(fine_id, ...)] and
    [ann.get('rationale', '')[:120]] all evaluate without raising. *)
Definition logs_annotation (ann : pyval) : bool :=
  match ann with
  | PDict a =>
      hashable (match get "fine_id" a with Some v => v | None => PNone end)
      && sliceable (match get "rationale" a with Some v => v | None => PStr "" end)
  | PNone | PBool _ | PInt _ | PFloat _ | PStr _ | PList _ => false
  end.

(** Lines 227-240: the logging of the final result runs to its end.
    [final_result.get('annotations', [])] needs a dict, [len] and
    [enumerate] of the value need a list, a dict or a string, and every
    item is logged as above. *)
Definition logs_final_result (final_result : pyval) : bool :=
  match final_result with
  | PDict d =>
      match iterate (match get "annotations" d with
                     | Some v => v
                     | None => PList []
                     end) with
      | Some items => forallb logs_annotation items
      | None => false
      end
  | PNone | PBool _ | PInt _ | PFloat _ | PStr _ | PList _ => false
  end.

Section WithModel.

(** The chat session (its history included) and [chat.send_message]; the
    reply is [None] when the SDK call raises. *)
Variable chat : Type.
Variable send_message : chat -> message -> chat * option response.

(** Whatever the tool handler reads and writes (catalog, notifier), and the
    handler as the [try] block of lines 259-277 runs it: the result that is
    put into the function response, or [str(e)] of the exception raised in
    the block. *)
Variable world : Type.
Variable tool_handler : string -> dict -> world -> world * (pyval + string).

(** Lines 379-408 of [_parse_response]: stripping of markdown fences,
    slicing from the first opening brace to the last closing one, then
    [json.loads]; [None] when [json.loads] raises. *)
Variable clean_and_loads : string -> option pyval.

(** [_parse_response(response)] *)
Definition _parse_response (r : response) : pyval + vertex_error :=
  match candidates r with
  | [] => inr NoCandidates
  | candidate :: _ =>
      match content_parts candidate with
      | [] => inl (PDict [("annotations", PList [])])
      | p :: _ =>
          match part_text p with
          | None => inr NoText
          | Some text =>
              match clean_and_loads text with
              | Some data => inl data
              | None => inr InvalidJson
              end
          end
      end
  end.

(** Lines 252-285: every function call is executed in turn; an exception of
    the handler becomes an error response and the loop goes on. *)
Fixpoint execute_function_calls (function_calls : list function_call) (w : world)
  : world * list function_response * list event :=
  match function_calls with
  | [] => (w, [], [])
  | fc :: rest =>
      let '(w1, outcome) := tool_handler (fc_name fc) (fc_args fc) w in
      let '(w2, function_responses, evs) := execute_function_calls rest w1 in
      (w2, response_part fc outcome :: function_responses, ToolCalled fc outcome :: evs)
  end.

(** Lines 226-241: the reply without function calls is parsed, logged and
    returned; an exception while it is logged leaves as [VertexError]. *)
Definition final_result (r : response) : pyval + vertex_error :=
  match _parse_response r with
  | inl data => if logs_final_result data then inl data else inr FinalLogFailed
  | inr e => inr e
  end.

(** The [while iteration < max_iterations] loop (lines 217-308);
    [remaining] is [max_iterations - iteration]. After the loop (line 308)
    the last reply is parsed and returned without being logged. *)
Fixpoint function_call_loop (remaining : nat) (c : chat) (w : world) (r : response)
  : chat * world * (pyval + vertex_error) * list event :=
  match remaining with
  | O => (c, w, _parse_response r, [])
  | S remaining' =>
      match _extract_function_calls r with
      | [] => (c, w, final_result r, [])
      | function_calls =>
          let '(w', function_responses, evs) := execute_function_calls function_calls w in
          let m := FunctionResponses function_responses in
          match send_message c m with
          | (c', Some r') =>
              let '(c'', w'', result, evs') := function_call_loop remaining' c' w' r' in
              (c'', w'', result, evs ++ Sent m (Some r') :: evs')
          | (c', None) => (c', w', inr SendFailed, evs ++ [Sent m None])
          end
      end
  end.

(** [call_with_tools(cached_content, prompt, tools, tool_handler, ...)] from
    the first [send_message] on; the model object and the generation
    settings are part of [chat]. *)
Definition call_with_tools (prompt : string) (c : chat) (w : world)
  : chat * world * (pyval + vertex_error) * list event :=
  let m := Prompt prompt in
  match send_message c m with
  | (c', Some r) =>
      let '(c'', w', result, evs) := function_call_loop max_iterations c' w r in
      (c'', w', result, Sent m (Some r) :: evs)
  | (c', None) => (c', w, inr SendFailed, [Sent m None])
  end.

End WithModel.

End Vertex.

(** ** Annotation orchestrator (domain/agentic/orchestrators.py) *)

Module Orchestrators.

Import Annotators.

(** What the orchestrator sends out besides its return value. *)
Inductive effect : Type :=
| LogWarningInvalid (segment_index : nat) (ann : pyval)
| LarkGeminiCallFailed (segment_index : nat) (k : annotator_kind) (e : Vertex.vertex_error)
| LarkSegmentFailed (segment_index : nat) (e : pyexn).

(** [annotator.validate_annotation(ann, segment)] for whatever item the
    reply's list holds. The annotators are written for a dict; on a string
    or a list [k in ann] is a containment test and [ann["segment_index"]]
    raises, on a number or [None] the first [k in ann] raises. *)
Definition validate_item (k : annotator_kind) (ann : pyval) (seg : segment)
  : bool + pyexn :=
  match ann with
  | PDict d => inl (validate_annotation k d seg)
  | PStr s =>
      if forallb (fun key => is_substring key s) required
      then inr TypeError else inl false
  | PList l =>
      if forallb (fun key => str_in_list key l) required
      then inr TypeError else inl false
  | PNone | PBool _ | PInt _ | PFloat _ => inr TypeError
  end.

(** The validation loop of [_process_segment] (lines 460-475): keeps the
    accepted items in order, warns for each rejected one, and stops at the
    first exception. *)
Fixpoint filter_valid (k : annotator_kind) (seg : segment) (segment_index : nat)
    (annotations : list pyval) : (list pyval + pyexn) * list effect :=
  match annotations with
  | [] => (inl [], [])
  | ann :: rest =>
      match validate_item k ann seg with
      | inr e => (inr e, [])
      | inl true =>
          let '(r, log) := filter_valid k seg segment_index rest in
          (match r with inl valid_anns => inl (ann :: valid_anns) | inr e => inr e end,
           log)
      | inl false =>
          let '(r, log) := filter_valid k seg segment_index rest in
          (r, LogWarningInvalid segment_index ann :: log)
      end
  end.

Section WithLanguageModel.

(** The outcome of [vertex.call_with_tools] for one (segment, annotator)
    pair: the parsed reply, or the [VertexError] it raised
    (the driver wraps every exception into [VertexError]). Each pair is
    called at most once per video, so one function describes a whole run,
    whatever the interleaving of the segment tasks. *)
Variable call_with_tools_result : nat -> annotator_kind -> pyval + Vertex.vertex_error.

(** [_process_segment]: the list it returns, or the exception that escapes. *)
Definition _process_segment (seg : segment) (segment_index : nat)
    (k : annotator_kind) : (list pyval + pyexn) * list effect :=
  match call_with_tools_result segment_index k with
  | inl response =>
      match response with
      | PDict d =>
          let annotations :=
            match get "annotations" d with Some v => v | None => PList [] end in
          match iterate annotations with
          | Some items => filter_valid k seg segment_index items
          | None => (inr TypeError, [])
          end
      | _ => (inr AttributeError, [])
      end
  | inr e => (inl [], [LarkGeminiCallFailed segment_index k e])
  end.

(** [process_one(idx, segment)]: phrases first, then words; any exception
    makes the task return the empty list after a notification. *)
Definition process_one (idx : nat) (seg : segment) : list pyval * list effect :=
  let '(phrase_r, log1) := _process_segment seg idx phrase_sense in
  match phrase_r with
  | inr e => ([], log1 ++ [LarkSegmentFailed idx e])
  | inl phrase_anns =>
      let '(word_r, log2) := _process_segment seg idx word_sense in
      match word_r with
      | inr e => ([], log1 ++ log2 ++ [LarkSegmentFailed idx e])
      | inl word_anns => (phrase_anns ++ word_anns, log1 ++ log2)
      end
  end.

(** [_process_segments_concurrent]: [asyncio.gather] returns the tasks'
    results in the order of the tasks, which is the order of
    [enumerate(segments)]; the batches are then appended one after another. *)
Definition _process_segments_concurrent (segments : list segment) : list pyval :=
  concat (imap (fun idx seg => fst (process_one idx seg)) segments).

End WithLanguageModel.

Section WithCache.

Variable CachedContent : Type.

(** [vertex.create_cached_content] on the transcript built from the
    segments, with or without the video: the cache, or [None] when it raises
    [VertexError] (it wraps every failure into one). *)
Variable create_cached_content : option string -> list segment -> option CachedContent.

(** [_create_cached_content(video_uri, segments, multimodal)] *)
Definition _create_cached_content (video_uri : option string)
    (segments : list segment) (multimodal : bool) : option CachedContent :=
  create_cached_content (if multimodal then video_uri else None) segments.

(** Truth value of an [Optional[str]]: [None] and the empty string are false. *)
Definition truthy (s : option string) : bool :=
  match s with
  | Some s' => negb (String.eqb s' "")
  | None => false
  end.

(** [_create_cached_content_with_fallback(video_uri, segments)] *)
Definition _create_cached_content_with_fallback (video_uri : option string)
    (segments : list segment) : option CachedContent * string :=
  let text_only :=
    match _create_cached_content None segments false with
    | Some cached_content => (Some cached_content, "gemini_text")
    | None => (None, "gemini_nocache")
    end in
  if truthy video_uri then
    match _create_cached_content video_uri segments true with
    | Some cached_content => (Some cached_content, "gemini_video")
    | None => text_only
    end
  else text_only.

End WithCache.

(** [process_video(video_uid, video_uri, segments)]; the language model's
    replies may depend on the cache the calls are made with. *)
Definition process_video {CachedContent : Type}
    (create_cached_content : option string -> list segment -> option CachedContent)
    (call_with_tools_result :
       option CachedContent -> nat -> annotator_kind -> pyval + Vertex.vertex_error)
    (gemini_model : string) (video_uri : option string) (segments : list segment)
  : list pyval * string * string :=
  let '(cached_content, method) :=
    _create_cached_content_with_fallback CachedContent create_cached_content
                                         video_uri segments in
  let annotations :=
    _process_segments_concurrent (call_with_tools_result cached_content) segments in
  let ontology_ver := gemini_model in
  (annotations, method, ontology_ver).

End Orchestrators.

(** ** Catalog tool (domain/agentic/mcp_tools.py) *)

Module MCPTools.

(** A row of [semantic.fine_unit]. *)
Record fine_unit : Type := mkFineUnit {
  fu_id : Z;
  fu_kind : string;
  fu_label : string;
  fu_lang : string;
  fu_pos : option string;
  fu_def : string;
  fu_meta : dict;
  fu_status : string;
  fu_external_key : option string
}.

(** The table and the sequence behind its [id] column. *)
Record catalog : Type := mkCatalog {
  rows : list fine_unit;
  next_id : Z
}.

(** [POS_TO_DB]: long part-of-speech name to the stored one-letter code. *)
Definition POS_TO_DB : list (string * option string) :=
  [("n", Some "n"); ("v", Some "v"); ("a", Some "a"); ("r", Some "r");
   ("prep", Some "p"); ("conj", Some "c"); ("pron", Some "m");
   ("det", Some "d"); ("interj", Some "i"); ("N/A", None)].

Fixpoint assoc {A : Type} (k : string) (l : list (string * A)) : option A :=
  match l with
  | [] => None
  | (k', v) :: l' => if String.eqb k k' then Some v else assoc k l'
  end.

(** [POS_TO_DB.get(pos, pos)] *)
Definition pos_to_db (pos : string) : option string :=
  match assoc pos POS_TO_DB with
  | Some code => code
  | None => Some pos
  end.

(** SQL [column = $n]: unknown, hence not selected, when either side is NULL. *)
Definition sql_eq (column param : option string) : bool :=
  match column, param with
  | Some a, Some b => String.eqb a b
  | _, _ => false
  end.

Definition opt_str (o : option string) : pyval :=
  match o with Some s => PStr s | None => PNone end.

(** The candidate dict built from a row by [_query_word_senses]. *)
Definition word_candidate (r : fine_unit) : dict :=
  [("fine_id", PInt (fu_id r)); ("label", PStr (fu_label r));
   ("pos", opt_str (fu_pos r)); ("definition", PStr (fu_def r))].

(** The candidate dict built from a row by [_query_phrase_senses]. *)
Definition phrase_candidate (r : fine_unit) : dict :=
  [("fine_id", PInt (fu_id r)); ("label", PStr (fu_label r));
   ("definition", PStr (fu_def r))].

Definition id_le (a b : fine_unit) : Prop := fu_id a <= fu_id b.

#[global] Instance id_le_dec (a b : fine_unit) : Decision (id_le a b) :=
  Z_le_dec (fu_id a) (fu_id b).

Definition truthy (s : option string) : bool :=
  match s with
  | Some s' => negb (String.eqb s' "")
  | None => false
  end.

Record MCPQueryResult : Type := mkQueryResult {
  qr_candidates : list dict;
  qr_found : bool
}.

Section WithDatabase.

(** The database's [LOWER]. *)
Variable LOWER : string -> string.

(** [hashlib.md5(s.encode()).hexdigest()] *)
Variable md5_hexdigest : string -> string.

(** The WHERE clause of [_query_word_senses] without the optional part. *)
Definition word_where (lemma lang : string) (r : fine_unit) : bool :=
  String.eqb (fu_kind r) "word_sense"
  && String.eqb (LOWER (fu_label r)) (LOWER lemma)
  && String.eqb (fu_lang r) lang
  && String.eqb (fu_status r) "active".

(** [_query_word_senses(lemma, pos, lang)]; [table] is [None] when
    [db.fetch_all] raises, which the method turns into an empty list. *)
Definition _query_word_senses (lemma : string) (pos : option string)
    (lang : string) (table : option (list fine_unit)) : list dict :=
  match table with
  | None => []
  | Some all_rows =>
      let selected :=
        match pos with
        | Some p =>
            if negb (String.eqb p "")
            then List.filter (fun r => word_where lemma lang r
                                       && sql_eq (fu_pos r) (pos_to_db p)) all_rows
            else List.filter (word_where lemma lang) all_rows
        | None => List.filter (word_where lemma lang) all_rows
        end in
      map word_candidate (take 50 (merge_sort id_le selected))
  end.

(** The WHERE clause of [_query_phrase_senses]. *)
Definition phrase_where (phrase lang : string) (r : fine_unit) : bool :=
  String.eqb (fu_kind r) "phrase_sense"
  && String.eqb (LOWER (fu_label r)) (LOWER phrase)
  && String.eqb (fu_lang r) lang
  && String.eqb (fu_status r) "active".

(** [_query_phrase_senses(phrase, lang)]: neither ORDER BY nor LIMIT; the
    rows come in the order the table yields them. *)
Definition _query_phrase_senses (phrase lang : string)
    (table : option (list fine_unit)) : list dict :=
  match table with
  | None => []
  | Some all_rows => map phrase_candidate (List.filter (phrase_where phrase lang) all_rows)
  end.

(** [query_fine_units(lemma, kind, pos=None, lang="en")] *)
Definition query_fine_units (lemma kind : string) (pos : option string)
    (lang : string) (table : option (list fine_unit)) : MCPQueryResult :=
  let candidates :=
    if String.eqb kind "word_sense" then _query_word_senses lemma pos lang table
    else if String.eqb kind "phrase_sense" then _query_phrase_senses lemma lang table
    else [] in
  mkQueryResult candidates (0 <? length candidates)%nat.

(** [external_key = f"{self.gemini_model}:{lemma}:def_{def_hash}"] with
    [def_hash = md5(definition)[:8]]. *)
Definition external_key_of (gemini_model lemma definition : string) : string :=
  let def_hash := String.substring 0 8 (md5_hexdigest definition) in
  gemini_model +:+ ":" +:+ lemma +:+ ":def_" +:+ def_hash.

(** [SELECT ... FROM semantic.fine_unit WHERE external_key = $1] through
    [fetch_one]: the first matching row. *)
Definition select_by_external_key (key : string) (c : catalog) : option fine_unit :=
  List.find (fun r => sql_eq (fu_external_key r) (Some key)) (rows c).

(** [INSERT INTO semantic.fine_unit ... RETURNING ...]: the new row gets the
    next id of the sequence; the unique index on [external_key] rejects a
    second row with the same key. *)
Definition insert_fine_unit (kind label lang : string) (pos : option string)
    (def : string) (meta : dict) (status key : string) (c : catalog)
  : option (fine_unit * catalog) :=
  match select_by_external_key key c with
  | Some _ => None
  | None =>
      let row := mkFineUnit (next_id c) kind label lang pos def meta status (Some key) in
      Some (row, mkCatalog (rows c ++ [row]) (next_id c + 1))
  end.

Record created : Type := mkCreated {
  cr_fine_id : Z;
  cr_lemma : string;
  cr_pos : option string;
  cr_def : string;
  cr_status : string;
  cr_note : string
}.

(** [create_fine_unit(lemma, kind, pos, definition, lang, video_uid)];
    [utcnow] is [datetime.utcnow().isoformat()]. The result is [None] when
    the INSERT raises (the method re-raises). *)
Definition create_fine_unit (gemini_model : string) (utcnow : string)
    (lemma kind pos definition lang : string) (video_uid : option string)
    (c : catalog) : option created * catalog :=
  let external_key := external_key_of gemini_model lemma definition in
  match select_by_external_key external_key c with
  | Some existing =>
      (Some (mkCreated (fu_id existing) (fu_label existing) (fu_pos existing)
                       (fu_def existing) (fu_status existing)
                       "Already exists in database"), c)
  | None =>
      let db_pos := pos_to_db pos in
      let meta : dict :=
        [("source", PStr gemini_model); ("lemma_name", PStr lemma);
         ("pos", PStr pos); ("definition", PStr definition);
         ("created_by", PStr "gemini_agentic");
         ("created_at_timestamp", PStr utcnow);
         ("video_uid", opt_str video_uid)] in
      match insert_fine_unit kind lemma lang db_pos definition meta "pending"
                             external_key c with
      | Some (row, c') =>
          (Some (mkCreated (fu_id row) (fu_label row)
                           (if truthy (fu_pos row) then fu_pos row else Some "N/A")
                           (fu_def row) "pending"
                           "Created by Gemini, pending manual review"), c')
      | None => (None, c)
      end
  end.

End WithDatabase.

End MCPTools.

(** ** Persistence (domain/persistence.py) *)

Module Persistence.

(** An [asyncpg.PostgresError] as the handler reads it. *)
Record pg_error : Type := mkPgError {
  pg_foreign_key_violation : bool;   (* isinstance(e, ForeignKeyViolationError) *)
  pg_sqlstate : option string;
  pg_message : string;
  pg_constraint_name : option string
}.

(** What one [conn.execute] does: return its command tag or raise. *)
Inductive exec_outcome : Type :=
| Completed (command_tag : string)
| RaisedPostgresError (e : pg_error)
| RaisedDatabaseError (msg : string)
| RaisedException (msg : string).

(** The parameters [$1..$6] of the occurrence INSERT. *)
Record occurrence_insert : Type := mkOccurrenceInsert {
  oi_segment_id : Z;
  oi_fine_id : pyval;
  oi_reliability_score : pyval;
  oi_detection_method : string;
  oi_evidence : dict;
  oi_ontology_ver : string
}.

(** The value of [first_error]: the [error_detail] dict of a PostgresError,
    or the two-entry dict the other handlers store. *)
Inductive error_record : Type :=
| PgDetail (annotation_index : nat) (e : pg_error)
| Generic (annotation_index : nat) (error : string).

Inductive log_entry : Type :=
| WarnInvalidSegmentIndex (annotation_index : nat)
| WarnForeignKeySkipped (annotation_index : nat)
| ErrorFirst (annotation_index : nat)
| DebugCascading (annotation_index : nat).

(** What a loop pass does before it reaches [conn.execute]. *)
Inductive prepared : Type :=
| SkipInvalid
| Statement (stmt : occurrence_insert)
| Raises (msg : string).

(** [segment_ids[segment_index]] for an int below [len(segment_ids)]:
    a negative index counts from the end of the list, and below
    [-len(segment_ids)] the lookup raises [IndexError]. *)
Definition list_index (segment_ids : list Z) (i : Z) : option Z :=
  if 0 <=? i then segment_ids !! Z.to_nat i
  else if - Z.of_nat (length segment_ids) <=? i
       then segment_ids !! Z.to_nat (Z.of_nat (length segment_ids) + i)
       else None.

Definition get_default (k : string) (d : dict) (default : pyval) : pyval :=
  match get k d with Some v => v | None => default end.

(** Lines 205-234 up to the call of [conn.execute]. *)
Definition prepare (segment_ids : list Z) (ann : pyval) (method ontology_ver : string)
  : prepared :=
  match ann with
  | PDict d =>
      match get_default "segment_index" d PNone with
      | PNone => SkipInvalid
      | segment_index =>
          match num_value segment_index with
          | None => Raises "TypeError"
          | Some f =>
              if float_le (PFin (inject_Z (Z.of_nat (length segment_ids)))) f
              then SkipInvalid
              else
                match int_value segment_index with
                | None => Raises "TypeError"
                | Some i =>
                    match list_index segment_ids i with
                    | None => Raises "IndexError"
                    | Some segment_id =>
                        let evidence : dict :=
                          [("span", get_default "span" d (PDict []));
                           ("rationale", get_default "rationale" d (PStr ""));
                           ("visual_comprehensibility",
                            get_default "visual_comprehensibility" d PNone);
                           ("textual_comprehensibility",
                            get_default "textual_comprehensibility" d PNone)] in
                        match get "fine_id" d with
                        | None => Raises "KeyError"
                        | Some fine_id =>
                            Statement
                              (mkOccurrenceInsert segment_id fine_id
                                 (get_default "score" d (PFloat (PFin (1 # 2))))
                                 method evidence ontology_ver)
                        end
                    end
                end
          end
      end
  | _ => Raises "AttributeError"
  end.

(** [s.lower()] on ASCII letters. *)
Definition lower_ascii (a : Ascii.ascii) : Ascii.ascii :=
  let n := Ascii.nat_of_ascii a in
  if (65 <=? n)%nat && (n <=? 90)%nat then Ascii.ascii_of_nat (n + 32) else a.

Fixpoint lower (s : string) : string :=
  match s with
  | EmptyString => EmptyString
  | String a s' => String (lower_ascii a) (lower s')
  end.

(** The running totals of the loop. *)
Record totals : Type := mkTotals {
  inserted : nat;
  skipped : nat;
  first_error : option error_record
}.

(** How the loop ends: it returns [(inserted, skipped)] or an exception
    leaves it. *)
Inductive loop_result : Type :=
| Returned (inserted skipped : nat)
| Raised (annotation_index : nat) (o : exec_outcome).

Section WithConnection.

(** The connection inside the transaction: its state and what an occurrence
    INSERT does on it. *)
Variable conn : Type.
Variable execute : conn -> occurrence_insert -> conn * exec_outcome.

(** [first_error == error_detail]: the [error_detail] of a pass carries that
    pass's [annotation_index], so it equals the stored dict exactly when the
    stored dict is the [error_detail] of the same pass. *)
Definition is_this_detail (fe : option error_record) (idx : nat) : bool :=
  match fe with
  | Some (PgDetail i _) => (i =? idx)%nat
  | _ => false
  end.

(** [first_error.get("error") == str(e)] *)
Definition same_error_text (fe : option error_record) (msg : string) : bool :=
  match fe with
  | Some (Generic _ m) => String.eqb m msg
  | _ => false
  end.

Definition or_first (fe : option error_record) (r : error_record) : option error_record :=
  match fe with Some _ => fe | None => Some r end.

(** One pass of the [for idx, ann in enumerate(annotations)] loop: the new
    totals, or the exception that leaves the loop. *)
Definition loop_pass (segment_ids : list Z) (method ontology_ver : string)
    (idx : nat) (ann : pyval) (c : conn) (t : totals)
  : conn * (totals + exec_outcome) * list (occurrence_insert * exec_outcome)
    * list log_entry :=
  let on_exception (c' : conn) (msg : string) tr :=
    (c', inl (mkTotals (inserted t) (S (skipped t))
                       (or_first (first_error t) (Generic idx msg))), tr,
     [match first_error t with None => ErrorFirst idx | Some _ => DebugCascading idx end]) in
  match prepare segment_ids ann method ontology_ver with
  | SkipInvalid =>
      (c, inl (mkTotals (inserted t) (S (skipped t)) (first_error t)), [],
       [WarnInvalidSegmentIndex idx])
  | Raises msg => on_exception c msg []
  | Statement stmt =>
      let '(c', o) := execute c stmt in
      let tr := [(stmt, o)] in
      match o with
      | Completed command_tag =>
          (c', inl (mkTotals
                      (if is_substring "INSERT 0 1" command_tag
                       then S (inserted t) else inserted t)
                      (skipped t) (first_error t)), tr, [])
      | RaisedPostgresError e =>
          let fe := or_first (first_error t) (PgDetail idx e) in
          let log1 := match first_error t with
                      | None => ErrorFirst idx | Some _ => DebugCascading idx end in
          if pg_foreign_key_violation e
          then (c', inl (mkTotals (inserted t) (S (skipped t)) fe), tr,
                [log1; WarnForeignKeySkipped idx])
          else if is_this_detail fe idx
               then (c', inr o, tr, [log1])
               else (c', inl (mkTotals (inserted t) (S (skipped t)) fe), tr, [log1])
      | RaisedDatabaseError msg =>
          let fe := or_first (first_error t) (Generic idx msg) in
          let log1 := match first_error t with
                      | None => [ErrorFirst idx] | Some _ => [] end in
          if is_substring "foreign key" (lower msg)
             || is_substring "violates foreign key" (lower msg)
          then (c', inl (mkTotals (inserted t) (S (skipped t)) fe), tr,
                log1 ++ [WarnForeignKeySkipped idx])
          else if same_error_text fe msg
               then (c', inr o, tr, log1)
               else (c', inl (mkTotals (inserted t) (S (skipped t)) fe), tr, log1)
      | RaisedException msg => on_exception c' msg tr
      end
  end.

(** The loop from pass [idx] on. *)
Fixpoint insert_loop (segment_ids : list Z) (method ontology_ver : string)
    (idx : nat) (annotations : list pyval) (c : conn) (t : totals)
  : conn * loop_result * list (occurrence_insert * exec_outcome) * list log_entry :=
  match annotations with
  | [] => (c, Returned (inserted t) (skipped t), [], [])
  | ann :: rest =>
      match loop_pass segment_ids method ontology_ver idx ann c t with
      | (c', inr o, tr, log) => (c', Raised idx o, tr, log)
      | (c', inl t', tr, log) =>
          let '(c'', r, tr', log') :=
            insert_loop segment_ids method ontology_ver (S idx) rest c' t' in
          (c'', r, tr ++ tr', log ++ log')
      end
  end.

(** [_insert_occurrences(conn, segment_ids, annotations, method, ontology_ver)] *)
Definition _insert_occurrences (c : conn) (segment_ids : list Z)
    (annotations : list pyval) (method ontology_ver : string)
  : conn * loop_result * list (occurrence_insert * exec_outcome) * list log_entry :=
  insert_loop segment_ids method ontology_ver 0 annotations c (mkTotals 0 0 None).

(** The segment upsert through [conn.fetchrow]: the row's id, or [None]
    when it raises. *)
Variable upsert_segment : conn -> Z -> segment -> conn * option Z.

(** [_insert_segments(conn, video_id, segments)]: the ids in input order, or
    [None] when an upsert raised (the exception is re-raised). *)
Fixpoint _insert_segments (c : conn) (video_id : Z) (segments : list segment)
  : conn * option (list Z) :=
  match segments with
  | [] => (c, Some [])
  | seg :: rest =>
      match upsert_segment c video_id seg with
      | (c', None) => (c', None)
      | (c', Some id) =>
          match _insert_segments c' video_id rest with
          | (c'', Some ids) => (c'', Some (id :: ids))
          | (c'', None) => (c'', None)
          end
      end
  end.

Record stats : Type := mkStats {
  segments_inserted : nat;
  occurrences_inserted : nat;
  occurrences_skipped : nat
}.

(** How the transaction of [save_video_analysis] ends. *)
Inductive save_result : Type :=
| Committed (s : stats)
| PersistenceError.

(** [save_video_analysis(video_id, segments, annotations, method,
    ontology_ver)]: one connection, one transaction, segments first. *)
Definition save_video_analysis (c : conn) (video_id : Z) (segments : list segment)
    (annotations : list pyval) (method ontology_ver : string)
  : conn * save_result * list (occurrence_insert * exec_outcome) * list log_entry :=
  match _insert_segments c video_id segments with
  | (c1, None) => (c1, PersistenceError, [], [])
  | (c1, Some segment_ids) =>
      match _insert_occurrences c1 segment_ids annotations method ontology_ver with
      | (c2, Returned occ_inserted occ_skipped, tr, log) =>
          (c2, Committed (mkStats (length segment_ids) occ_inserted occ_skipped), tr, log)
      | (c2, Raised _ _, tr, log) => (c2, PersistenceError, tr, log)
      end
  end.

End WithConnection.

(** A row of [video]; [v_rest] stands for the columns the worker never names. *)
Record video : Type := mkVideo {
  v_id : Z;
  v_video_uid : string;
  v_status : string;
  v_storage_path : string;
  v_hls_path : option string;
  v_structured_transcript_path : option string;
  v_updated_at : Z;
  v_rest : dict
}.

Definition truthy (s : option string) : bool :=
  match s with
  | Some s' => negb (String.eqb s' "")
  | None => false
  end.

(** [update_video_status(video_id, status, hls_path=None,
    transcript_path=None)]: the UPDATE it builds, applied to the table;
    [now] is the database's [NOW()]. *)
Definition update_video_status (now : Z) (video_id : Z) (status : string)
    (hls_path transcript_path : option string) (videos : list video) : list video :=
  map (fun r =>
         if v_id r =? video_id then
           mkVideo (v_id r) (v_video_uid r) status (v_storage_path r)
                   (if truthy hls_path then hls_path else v_hls_path r)
                   (if truthy transcript_path then transcript_path
                    else v_structured_transcript_path r)
                   now (v_rest r)
         else r)
      videos.

End Persistence.

(** ** Ingestion workflow (application/workflow.py) *)

Module Workflow.

Import Persistence.

Record PubSubMessage : Type := mkMessage {
  bucket : string;
  object_name : string;
  video_uid : string;
  etag : string;
  generation : string
}.

(** A row of [ingest_jobs] without its primary key [(object_key, etag)].
    Timestamps are instants in microseconds, the resolution of [datetime]. *)
Record job_row : Type := mkJobRow {
  j_video_uid : string;
  j_video_id : Z;
  j_status : string;
  j_started_at : option Z;
  j_finished_at : option Z;
  j_retry_count : Z;
  j_err : option string
}.

(** The [IngestJob] dataclass, with the fields the workflow fills in. *)
Record IngestJob : Type := mkIngestJob {
  job_object_key : string;
  job_etag : string;
  job_video_uid : string;
  job_video_id : Z;
  job_status : string;
  job_retry_count : Z
}.

(** The tables the workflow reads and writes; [ingest_jobs] is keyed by its
    primary key, [video_seq] is the sequence behind [video.id]. *)
Record database : Type := mkDatabase {
  ingest_jobs : gmap (string * string) job_row;
  videos : list video;
  video_seq : Z
}.

Definition PROCESSING_TIMEOUT_SECONDS : Z := 3600.

(** [(now - started_at).total_seconds() < PROCESSING_TIMEOUT_SECONDS] on
    instants in microseconds. *)
Definition within_timeout (now started_at : Z) : bool :=
  now - started_at <? PROCESSING_TIMEOUT_SECONDS * 1000000.

(** [_get_or_create_video(video_uid, object_name)] *)
Definition _get_or_create_video (raw_bucket : string) (now : Z)
    (video_uid object_name : string) (db : database) : database * Z :=
  match List.find (fun r => String.eqb (v_video_uid r) video_uid) (videos db) with
  | Some row => (db, v_id row)
  | None =>
      let storage_path := "gs://" +:+ raw_bucket +:+ "/" +:+ object_name in
      let row := mkVideo (video_seq db) video_uid "PROCESSING" storage_path
                         None None now [] in
      (mkDatabase (ingest_jobs db) (videos db ++ [row]) (video_seq db + 1),
       video_seq db)
  end.

(** [_check_idempotency(message)]: the message of the [IdempotencyError] it
    raises, or the job it returns. *)
Definition _check_idempotency (raw_bucket : string) (now : Z)
    (message : PubSubMessage) (db : database) : database * (string + IngestJob) :=
  let key := (object_name message, etag message) in
  match ingest_jobs db !! key with
  | Some row =>
      let existing :=
        mkIngestJob (object_name message) (etag message) (j_video_uid row)
                    (j_video_id row) (j_status row) (j_retry_count row) in
      if String.eqb (j_status row) "done" then
        (db, inl "Task already completed")
      else if String.eqb (j_status row) "processing" then
        match j_started_at row with
        | Some started_at =>
            if within_timeout now started_at then
              (db, inl "Task already processing")
            else
              let reset :=
                mkJobRow (j_video_uid row) (j_video_id row) "queued" None
                         (j_finished_at row) (j_retry_count row + 1) (j_err row) in
              (mkDatabase (<[key := reset]> (ingest_jobs db)) (videos db) (video_seq db),
               inr existing)
        | None => (db, inr existing)
        end
      else (db, inr existing)
  | None =>
      let '(db1, video_id) :=
        _get_or_create_video raw_bucket now (video_uid message) (object_name message) db in
      let row := mkJobRow (video_uid message) video_id "processing" (Some now)
                          None 0 None in
      (mkDatabase (<[key := row]> (ingest_jobs db1)) (videos db1) (video_seq db1),
       inr (mkIngestJob (object_name message) (etag message) (video_uid message)
                        video_id "processing" 0))
  end.

(** A [WorkflowError]: its class, message and [retryable] flag. *)
Record WorkflowError : Type := mkWorkflowError {
  error_class : string;
  error_message : string;
  retryable : bool
}.

Definition IdempotencyError (message : string) : WorkflowError :=
  mkWorkflowError "IdempotencyError" message false.

Definition ASRError (message : string) : WorkflowError :=
  mkWorkflowError "ASRError" message true.

(** [lark.send_error(error_type, error_message, context)] *)
Record notification : Type := mkNotification {
  n_error_type : string;
  n_error_message : string;
  n_video_uid : string;
  n_retryable : bool
}.

(** [_handle_error(video_uid, error)]: the two UPDATEs and the
    notification; [now] is the database's [NOW()]. *)
Definition _handle_error (now : Z) (video_uid : string) (error : WorkflowError)
    (db : database) : database * list notification :=
  let jobs :=
    (fun row =>
       if String.eqb (j_video_uid row) video_uid
          && String.eqb (j_status row) "processing"
       then mkJobRow (j_video_uid row) (j_video_id row) "error" (j_started_at row)
                     (Some now) (j_retry_count row) (Some (error_message error))
       else row) <$> ingest_jobs db in
  let vids :=
    map (fun v =>
           if String.eqb (v_video_uid v) video_uid
           then mkVideo (v_id v) (v_video_uid v) "ERROR" (v_storage_path v)
                        (v_hls_path v) (v_structured_transcript_path v)
                        (v_updated_at v) (v_rest v)
           else v) (videos db) in
  (mkDatabase jobs vids (video_seq db),
   [mkNotification (error_class error) (error_message error) video_uid
                   (retryable error)]).

(** What leaves the [try] block of [process_message]. *)
Inductive raised : Type :=
| RaisedWorkflowError (e : WorkflowError)
| RaisedOther (text : string).

(** The error the [except] clauses hand to the handler: a [WorkflowError]
    as it is, anything else wrapped as [WorkflowError(str(e))]. *)
Definition handled (r : raised) : WorkflowError :=
  match r with
  | RaisedWorkflowError e => e
  | RaisedOther text => mkWorkflowError "WorkflowError" text true
  end.

(** [process_message(message)]. Steps 1 to 6 are a parameter: they turn the
    job and the tables into new tables and either finish or raise.
    [now] is the instant of the idempotency check, [later] the instant of
    the error handler. *)
Definition process_message (raw_bucket : string) (now later : Z)
    (steps_1_to_6 : IngestJob -> database -> database * option raised)
    (message : PubSubMessage) (db : database)
  : database * option raised * list notification :=
  let on_raise (db' : database) (r : raised) :=
    let '(db'', sent) := _handle_error later (video_uid message) (handled r) db' in
    (db'', Some r, sent) in
  match _check_idempotency raw_bucket now message db with
  | (db0, inl msg) => on_raise db0 (RaisedWorkflowError (IdempotencyError msg))
  | (db0, inr job) =>
      match steps_1_to_6 job db0 with
      | (db1, None) => (db1, None, [])
      | (db1, Some r) => on_raise db1 r
      end
  end.

(** Steps 3 and 4 of [process_message] ([_run_agentic], then
    [_persist_data]) on the segments of the transcript. *)
Definition annotate_and_persist {CachedContent conn : Type}
    (create_cached_content : option string -> list segment -> option CachedContent)
    (call_with_tools_result :
       option CachedContent -> nat -> Annotators.annotator_kind
       -> pyval + Vertex.vertex_error)
    (execute : conn -> occurrence_insert -> conn * exec_outcome)
    (upsert_segment : conn -> Z -> segment -> conn * option Z)
    (raw_bucket gemini_model : string)
    (message : PubSubMessage) (job : IngestJob) (segments : list segment) (c : conn)
  : conn * save_result * list (occurrence_insert * exec_outcome) * list log_entry :=
  let video_uri := "gs://" +:+ raw_bucket +:+ "/" +:+ object_name message in
  let '(annotations, method, ontology_ver) :=
    Orchestrators.process_video create_cached_content call_with_tools_result
                                gemini_model (Some video_uri) segments in
  save_video_analysis conn execute upsert_segment c (job_video_id job) segments
                      annotations method ontology_ver.

(** [_finalize(job, hls_result, asr_result, stats)] (lines 446-483): the
    video is marked [READY] with the two paths, then the job under the key
    of [job] is marked [done]. [now_video] and [now_job] are the [NOW()] of
    the two UPDATEs. *)
Definition _finalize (now_video now_job : Z) (job : IngestJob)
    (hls_path : option string) (asr_json_uri : string) (db : database) : database :=
  let vids :=
    update_video_status now_video (job_video_id job) "READY" hls_path
                        (Some asr_json_uri) (videos db) in
  let jobs :=
    alter (fun row =>
             mkJobRow (j_video_uid row) (j_video_id row) "done" (j_started_at row)
                      (Some now_job) (j_retry_count row) (j_err row))
          (job_object_key job, job_etag job) (ingest_jobs db) in
  mkDatabase jobs vids (video_seq db).

End Workflow.

(** ** The statements of the specification, as predicates *)

Module Statements.

Import Annotators.

(** A Python int: an [int] proper or a [bool]. *)
Definition is_int (v : pyval) : Prop := exists z, int_value v = Some z.

(** A finite number between 0 and 1: an int or a float, neither NaN nor
    infinite. *)
Definition unit_score (v : pyval) : Prop :=
  exists q, num_value v = Some (PFin q) /\ (0 <= q)%Q /\ (q <= 1)%Q.

(** What the annotators' validator checks, stated on the annotation. *)
Definition accepted (ann : dict) (seg : segment) : Prop :=
  (exists v, get "segment_index" ann = Some v /\ is_int v) /\
  (exists v, get "fine_id" ann = Some v /\ is_int v) /\
  (exists span vs ve s e,
      get "span" ann = Some (PDict span) /\
      get "start" span = Some vs /\ get "end" span = Some ve /\
      int_value vs = Some s /\ int_value ve = Some e /\
      0 <= s /\ s < e /\ e <= Z.of_nat (len (seg_text seg))) /\
  (exists v, get "visual_comprehensibility" ann = Some v /\ unit_score v) /\
  (exists v, get "textual_comprehensibility" ann = Some v /\ unit_score v) /\
  (exists r, get "rationale" ann = Some (PStr r) /\ r <> "").

(** The validator as the specification words it: all of [accepted], and the
    annotation's [segment_index] is the index [i] of the segment. *)
Definition accepted_for_index (i : Z) (ann : dict) (seg : segment) : Prop :=
  accepted ann seg /\
  exists v, get "segment_index" ann = Some v /\ int_value v = Some i.

(** The method tags as the specification names them. *)
Definition specified_method_tags : list string :=
  ["model_video"; "model_text"; "model_nocache"].

(** The method tags of the source. *)
Definition method_tags : list string :=
  ["gemini_video"; "gemini_text"; "gemini_nocache"].

Section QueryStatement.

Import MCPTools.

Variable LOWER : string -> string.

(** The rows the specification says a query returns: label equal to the
    lemma case-insensitively, same kind and language, status [active], and,
    when a part of speech is supplied, [pos] equal to the storage code it
    maps to. *)
Definition specified_match (lemma kind : string) (pos : option string)
    (lang : string) (r : fine_unit) : Prop :=
  LOWER (fu_label r) = LOWER lemma /\ fu_kind r = kind /\ fu_lang r = lang /\
  fu_status r = "active" /\
  (forall p, pos = Some p -> fu_pos r = pos_to_db p /\ fu_pos r <> None).

(** The rows a query selects: as above, for the kinds [word_sense] and
    [phrase_sense] only, and with the part of speech taken into account
    only for [word_sense] and only when it is a non-empty string. *)
Definition selects (lemma kind : string) (pos : option string) (lang : string)
    (r : fine_unit) : bool :=
  String.eqb (fu_kind r) kind
  && (String.eqb kind "word_sense" || String.eqb kind "phrase_sense")
  && String.eqb (LOWER (fu_label r)) (LOWER lemma)
  && String.eqb (fu_lang r) lang
  && String.eqb (fu_status r) "active"
  && (if String.eqb kind "word_sense"
      then match pos with
           | Some p => if String.eqb p "" then true
                       else sql_eq (fu_pos r) (pos_to_db p)
           | None => true
           end
      else true).

End QueryStatement.

Section LoopStatement.

Import Vertex.

Variable chat : Type.
Variable send_message : chat -> message -> chat * option response.
Variable world : Type.
Variable tool_handler : string -> dict -> world -> world * (pyval + string).
Variable clean_and_loads : string -> option pyval.

(** "All of them are executed via the tool handler in the order they appear
    in the reply": the calls made, each with what the handler gave. *)
Inductive executed_in_order
  : list function_call -> world -> list (function_call * (pyval + string)) -> world -> Prop :=
| executed_none w : executed_in_order [] w [] w
| executed_next fc rest w w1 outcome calls w2 :
    tool_handler (fc_name fc) (fc_args fc) w = (w1, outcome) ->
    executed_in_order rest w1 calls w2 ->
    executed_in_order (fc :: rest) w ((fc, outcome) :: calls) w2.

(** The one message that carries the gathered function responses. *)
Definition gathered (calls : list (function_call * (pyval + string))) : message :=
  FunctionResponses (map (fun p => response_part (fst p) (snd p)) calls).

(** "The reply contains one or more function calls": the function calls
    of a reply, in the order in which they appear in it. *)
Fixpoint calls_of_parts (parts : list part) : list function_call :=
  match parts with
  | [] => []
  | p :: parts' =>
      match part_function_call p with
      | Some fc => fc :: calls_of_parts parts'
      | None => calls_of_parts parts'
      end
  end.

Fixpoint calls_of_candidates (cs : list candidate) : list function_call :=
  match cs with
  | [] => []
  | cand :: cs' => calls_of_parts (content_parts cand) ++ calls_of_candidates cs'
  end.

Definition reply_function_calls (r : response) : list function_call :=
  calls_of_candidates (candidates r).

(** "Parse the text as JSON and return. If the reply's parts are empty,
    return [{annotations: []}]": what the text of a reply parses to, or why
    parsing raises. *)
Inductive parsed_as_json : response -> pyval + vertex_error -> Prop :=
| parsed_no_candidates :
    parsed_as_json (mkResponse []) (inr NoCandidates)
| parsed_empty_parts rest :
    parsed_as_json (mkResponse (mkCandidate [] :: rest))
                   (inl (PDict [("annotations", PList [])]))
| parsed_no_text fc parts rest :
    parsed_as_json (mkResponse (mkCandidate (mkPart fc None :: parts) :: rest))
                   (inr NoText)
| parsed_text fc text parts rest data :
    clean_and_loads text = Some data ->
    parsed_as_json (mkResponse (mkCandidate (mkPart fc (Some text) :: parts) :: rest))
                   (inl data)
| parsed_invalid fc text parts rest :
    clean_and_loads text = None ->
    parsed_as_json (mkResponse (mkCandidate (mkPart fc (Some text) :: parts) :: rest))
                   (inr InvalidJson).

(** The function-call loop as the specification words it. [i] is the number
    of iterations already done, the list is what the driver does from the
    reply [r] on, the last argument is what it returns or raises. *)
Inductive loop_statement
  : nat -> chat -> world -> response -> list event -> pyval + vertex_error -> Prop :=
| loop_no_function_calls i c w r result :
    (i < max_iterations)%nat ->
    reply_function_calls r = [] ->
    parsed_as_json r result ->
    loop_statement i c w r [] result
| loop_cap_reached c w r result :
    parsed_as_json r result ->
    loop_statement max_iterations c w r [] result
| loop_continues i c w r calls w' c' r' evs result :
    (i < max_iterations)%nat ->
    reply_function_calls r <> [] ->
    executed_in_order (reply_function_calls r) w calls w' ->
    send_message c (gathered calls) = (c', Some r') ->
    loop_statement (S i) c' w' r' evs result ->
    loop_statement i c w r
      (map (fun p => ToolCalled (fst p) (snd p)) calls
       ++ Sent (gathered calls) (Some r') :: evs)
      result
| loop_send_raises i c w r calls w' c' :
    (i < max_iterations)%nat ->
    reply_function_calls r <> [] ->
    executed_in_order (reply_function_calls r) w calls w' ->
    send_message c (gathered calls) = (c', None) ->
    loop_statement i c w r
      (map (fun p => ToolCalled (fst p) (snd p)) calls
       ++ [Sent (gathered calls) None])
      (inr SendFailed).

(** The driver returns what the specification's loop returns, except that
    a final reply whose logging raises is not returned. *)
Definition returned_or_lost_in_logging (specified actual : pyval + vertex_error)
  : Prop :=
  actual = specified \/
  exists data,
    specified = inl data /\ logs_final_result data = false /\
    actual = inr FinalLogFailed.

(** The number of messages of function responses sent: one per iteration
    that executed tools. *)
Definition tool_rounds (evs : list event) : nat :=
  length (List.filter
            (fun ev => match ev with
                       | Sent (FunctionResponses _) _ => true
                       | _ => false
                       end) evs).

End LoopStatement.

End Statements.

(** ** Sample inputs *)

Module Examples.

Import Annotators.

Definition seg0 : segment :=
  mkSegment 0%Q (7 # 2)%Q "I want to give up learning English" "en".

Definition seg1 : segment := mkSegment (7 # 2)%Q 5%Q "Never" "en".

Definition annotation (segment_index fine_id start end_ : Z) : dict :=
  [("segment_index", PInt segment_index); ("fine_id", PInt fine_id);
   ("span", PDict [("start", PInt start); ("end", PInt end_)]);
   ("rationale", PStr "sense chosen from the candidates");
   ("visual_comprehensibility", PFloat (PFin (17 # 20)));
   ("textual_comprehensibility", PFloat (PFin (7 # 10)))].

Definition ann_give_up : dict := annotation 0 23456 10 17.
Definition ann_learn : dict := annotation 0 777 18 26.
Definition ann_out_of_text : dict := annotation 0 888 30 99.

Definition reply (annotations : list dict) : pyval :=
  PDict [("annotations", PList (map PDict annotations))].

(** An annotation whose [rationale] is JSON [null]. *)
Definition ann_null_rationale : dict :=
  [("segment_index", PInt 0); ("fine_id", PInt 777);
   ("span", PDict [("start", PInt 18); ("end", PInt 26)]);
   ("rationale", PNone);
   ("visual_comprehensibility", PFloat (PFin (17 # 20)));
   ("textual_comprehensibility", PFloat (PFin (7 # 10)))].

(** A final reply: one candidate with one text part and no function call;
    and a model that gives it to every message. *)
Definition final_reply : Vertex.response :=
  Vertex.mkResponse [Vertex.mkCandidate [Vertex.mkPart None (Some "{annotations: ...}")]].

Definition always_final (c : nat) (m : Vertex.message) : nat * option Vertex.response :=
  (S c, Some final_reply).

(** A run in which segment 0 gets one phrase, and one word out of two
    proposed, and the calls for every other segment fail. *)
Definition lm_run (idx : nat) (k : annotator_kind) : pyval + Vertex.vertex_error :=
  match idx, k with
  | O, phrase_sense => inl (reply [ann_give_up])
  | O, word_sense => inl (reply [ann_out_of_text; ann_learn])
  | _, _ => inr Vertex.SendFailed
  end.

(** A model that answers every message with one more function call. *)
Definition query_call : Vertex.function_call :=
  Vertex.mkFunctionCall "query_fine_units"
    [("lemma", PStr "give up"); ("kind", PStr "phrase_sense")].

Definition always_calls (c : nat) (m : Vertex.message) : nat * option Vertex.response :=
  (S c, Some (Vertex.mkResponse
                [Vertex.mkCandidate [Vertex.mkPart (Some query_call) None]])).

Definition no_candidates_handler (name : string) (args : dict) (w : unit)
  : unit * (pyval + string) :=
  (w, inl (PDict [("candidates", PList []); ("lemma", PStr "give up")])).

(** A phrase of the catalog; phrases are stored without a part of speech. *)
Definition give_up_row : MCPTools.fine_unit :=
  MCPTools.mkFineUnit 23456 "phrase_sense" "give up" "en" None
                      "stop trying to do something" [] "active" None.

(** The ingress event of a video, and the job row a failed run left. *)
Definition event0 : Workflow.PubSubMessage :=
  Workflow.mkMessage "raw" "uploads/6f8a/v.mp4" "6f8a" "abc" "1".

Definition job_in_status (status : string) (started_at : option Z) : Workflow.job_row :=
  Workflow.mkJobRow "6f8a" 7 status started_at None 0 None.

Definition video0 : Persistence.video :=
  Persistence.mkVideo 7 "6f8a" "PROCESSING" "gs://raw/uploads/6f8a/v.mp4"
                      None None 100 [].

Definition db_with (row : Workflow.job_row) : Workflow.database :=
  Workflow.mkDatabase {[ ("uploads/6f8a/v.mp4", "abc") := row ]} [video0] 8.

(** A catalog table with [n] active senses of one label. *)
Definition senses (kind label : string) (pos : option string) (n : nat)
  : list MCPTools.fine_unit :=
  map (fun i => MCPTools.mkFineUnit (Z.of_nat i) kind label "en" pos
                                    "one of many definitions" [] "active" None)
      (seq 1 n).

(** A stand-in for md5 that yields one digest. *)
Definition constant_digest (s : string) : string := "9e107d9d372bb6826bd81d3542a419d6".

(** A connection on which every INSERT violates a check constraint. *)
Definition always_rejects (c : unit) (stmt : Persistence.occurrence_insert)
  : unit * Persistence.exec_outcome :=
  (c, Persistence.RaisedPostgresError
        (Persistence.mkPgError false (Some "23514") "violates check constraint" None)).

(** A connection on which every INSERT inserts its row. *)
Definition always_inserts (c : unit) (stmt : Persistence.occurrence_insert)
  : unit * Persistence.exec_outcome :=
  (c, Persistence.Completed "INSERT 0 1").

End Examples.

(** ** Measures on what the code did *)

(** * infrastructure/gcs.py *)

Module GCS.

Import Stdlib.Strings.Ascii.

(** The two [GCSError]s of the URI check; each quotes the URI. *)
Inductive GCSError : Type :=
| InvalidURI (uri : string)
| InvalidURIFormat (uri : string).

(** [s.split("/", 1)]: the part before the first slash and, when there is
    a slash, the part after it (one part or two). *)
Fixpoint split_slash_1 (s : string) : string * option string :=
  match s with
  | EmptyString => (EmptyString, None)
  | String c rest =>
      if Ascii.eqb c "/"%char then (EmptyString, Some rest)
      else let '(head, tail) := split_slash_1 rest in (String c head, tail)
  end.

(** [uri[5:]] *)
Definition from_5 (uri : string) : string :=
  String.substring 5 (String.length uri - 5)%nat uri.

(** [parse_uri(uri)] *)
Definition parse_uri (uri : string) : (string * string) + GCSError :=
  if negb (String.prefix "gs://" uri) then inr (InvalidURI uri)
  else
    match split_slash_1 (from_5 uri) with
    | (bucket, Some object_name) => inl (bucket, object_name)
    | (_, None) => inr (InvalidURIFormat uri)
    end.

(** [exists(uri)]: the same check of the URI, then the HEAD request;
    [blob_exists] is [None] when the client raises, which the method turns
    into [False]. *)
Definition exists_ (blob_exists : string -> string -> option bool) (uri : string)
  : bool + GCSError :=
  if negb (String.prefix "gs://" uri) then inr (InvalidURI uri)
  else
    match split_slash_1 (from_5 uri) with
    | (bucket, Some object_name) =>
        inl (match blob_exists bucket object_name with
             | Some found => found
             | None => false
             end)
    | (_, None) => inr (InvalidURIFormat uri)
    end.

End GCS.

(** * domain/transcoding.py *)

Module Transcoding.

Record TranscodeResult : Type := mkTranscodeResult {
  hls_path : option string;
  status : string;
  error_message : option string
}.

(** How one pass through the [try] block ends: [create_transcode_job] and
    [wait_for_job] returned, or one of them raised a [TranscoderError], or
    something else was raised; the text is [str(e)]. *)
Inductive attempt_outcome : Type :=
| JobDone
| RaisedTranscoderError (text : string)
| RaisedException (text : string).

(** What the service does that can be observed: an attempt, a sleep. *)
Inductive event : Type :=
| Attempted (attempt : Z)
| Slept (seconds : Z).

Section WithTranscoder.

(** [config.raw_bucket], [config.hls_bucket], [config.max_retries],
    [config.retry_backoff_seconds]. *)
Variable raw_bucket hls_bucket : string.
Variable max_retries retry_backoff_seconds : Z.

(** The answer of the bucket to the HEAD request. *)
Variable blob_exists : string -> string -> option bool.

(** The outcome of the attempt with a given number on the two URIs. *)
Variable run_job : Z -> string -> string -> attempt_outcome.

Definition failed (message : string) : TranscodeResult :=
  mkTranscodeResult None "failed" (Some message).

(** The [for attempt in range(1, max_retries + 1)] loop from [attempt] on,
    with [remaining] passes left, and the return after the loop. *)
Fixpoint attempts (remaining : nat) (attempt : Z) (input_uri output_uri : string)
  : TranscodeResult * list event :=
  match remaining with
  | O => (failed "Max retries exceeded", [])
  | S remaining' =>
      match run_job attempt input_uri output_uri with
      | JobDone =>
          (mkTranscodeResult (Some (output_uri +:+ "manifest.m3u8")) "success" None,
           [Attempted attempt])
      | RaisedTranscoderError text =>
          if attempt <? max_retries then
            let backoff := retry_backoff_seconds * 2 ^ (attempt - 1) in
            let '(result, trace) :=
              attempts remaining' (attempt + 1) input_uri output_uri in
            (result, Attempted attempt :: Slept backoff :: trace)
          else (failed text, [Attempted attempt])
      | RaisedException text =>
          (failed ("Unexpected error: " +:+ text), [Attempted attempt])
      end
  end.

(** [transcode_video(video_uid, input_object_name)]: its result, or the
    [GCSError] that the existence check lets escape. *)
Definition transcode_video (video_uid input_object_name : string)
  : (TranscodeResult + GCS.GCSError) * list event :=
  let input_uri := "gs://" +:+ raw_bucket +:+ "/" +:+ input_object_name in
  let output_uri := "gs://" +:+ hls_bucket +:+ "/encoded/" +:+ video_uid +:+ "/" in
  match GCS.exists_ blob_exists input_uri with
  | inr e => (inr e, [])
  | inl false => (inl (failed ("Input file not found: " +:+ input_uri)), [])
  | inl true =>
      let '(result, trace) := attempts (Z.to_nat max_retries) 1 input_uri output_uri in
      (inl result, trace)
  end.

End WithTranscoder.

End Transcoding.

(** * domain/asr.py *)

Module ASR.

(** [types.Segment] *)
Record Segment : Type := mkASRSegment {
  t_start : pyfloat;
  t_end : pyfloat;
  text : string;
  lang : string;
  speaker : option string;
  meta : dict
}.

Record ASRResult : Type := mkASRResult {
  segments : list Segment;
  asr_json_uri : string;
  vtt_uri : string;
  duration_seconds : pyfloat
}.

(** What can be raised inside the [try] block, by the [except] clause that
    catches it: a [ReplicateError] or a [GCSError] (first clause), the
    [ASRError] for an empty output (line 120) or anything else (second
    clause). *)
Inductive exn : Type :=
| ReplicateError (text : string)
| GCSError (text : string)
| EmptyOutput (prediction_id : string)
| OtherException (text : string).

(** The [ASRError] that [run_whisperx] raises, by its message:
    "ASR failed after {max_retries} retries: {e}", "Unexpected ASR error:
    {e}", "Max retries exceeded: {max_retries}". *)
Inductive ASRError : Type :=
| FailedAfterRetries (max_retries : Z) (e : exn)
| UnexpectedASRError (e : exn)
| MaxRetriesExceeded (max_retries : Z).

Inductive event : Type :=
| Attempted (attempt : Z)
| Slept (seconds : Z).

(** The truth value of a JSON value. *)
Definition truthy (v : pyval) : bool :=
  match v with
  | PNone => false
  | PBool b => b
  | PInt z => negb (z =? 0)
  | PFloat (PFin q) => negb (Qeq_bool q 0)
  | PFloat _ => true
  | PStr s => negb (String.eqb s "")
  | PList l => negb (Nat.eqb (length l) 0)
  | PDict d => negb (Nat.eqb (length d) 0)
  end.

Section WithReplicate.

(** [config.transcript_bucket], [config.max_retries],
    [config.retry_backoff_seconds]. *)
Variable transcript_bucket : string.
Variable max_retries retry_backoff_seconds : Z.

(** Steps 1 to 3 of an attempt (signed URL, submission, waiting): the
    prediction id and the prediction, or what was raised. *)
Variable predict : Z -> string -> (string * dict) + exn.

(** Steps 5 to 7 of an attempt (the two uploads and [_parse_segments]) on
    the two URIs and the output: the parsed segments, or what was raised. *)
Variable store_and_parse : Z -> string -> string -> pyval -> list Segment + exn.

(** The body of the [try] block; a missing [output] is [None], which is
    as false as an empty one. *)
Definition try_once (attempt : Z) (video_uid input_object_name : string)
  : ASRResult + exn :=
  match predict attempt input_object_name with
  | inr e => inr e
  | inl (prediction_id, prediction) =>
      match get "output" prediction with
      | None => inr (EmptyOutput prediction_id)
      | Some output =>
          if negb (truthy output) then inr (EmptyOutput prediction_id)
          else
            let json_uri := "gs://" +:+ transcript_bucket +:+ "/" +:+ video_uid
                            +:+ "/asr.json" in
            let vtt_uri := "gs://" +:+ transcript_bucket +:+ "/" +:+ video_uid
                           +:+ "/subs.vtt" in
            match store_and_parse attempt json_uri vtt_uri output with
            | inr e => inr e
            | inl segs =>
                let duration :=
                  match last segs with
                  | Some s => t_end s
                  | None => PFin 0
                  end in
                inl (mkASRResult segs json_uri vtt_uri duration)
            end
      end
  end.

(** The exceptions of the first [except] clause. *)
Definition retried (e : exn) : bool :=
  match e with
  | ReplicateError _ | GCSError _ => true
  | EmptyOutput _ | OtherException _ => false
  end.

(** The [for attempt in range(1, max_retries + 1)] loop from [attempt] on,
    with [remaining] passes left, and the [raise] after the loop. *)
Fixpoint attempts (remaining : nat) (attempt : Z) (video_uid input_object_name : string)
  : (ASRResult + ASRError) * list event :=
  match remaining with
  | O => (inr (MaxRetriesExceeded max_retries), [])
  | S remaining' =>
      match try_once attempt video_uid input_object_name with
      | inl result => (inl result, [Attempted attempt])
      | inr e =>
          if retried e then
            if attempt <? max_retries then
              let backoff := retry_backoff_seconds * 2 ^ (attempt - 1) in
              let '(result, trace) :=
                attempts remaining' (attempt + 1) video_uid input_object_name in
              (result, Attempted attempt :: Slept backoff :: trace)
            else (inr (FailedAfterRetries max_retries e), [Attempted attempt])
          else (inr (UnexpectedASRError e), [Attempted attempt])
      end
  end.

(** [run_whisperx(video_uid, input_object_name)] *)
Definition run_whisperx (video_uid input_object_name : string)
  : (ASRResult + ASRError) * list event :=
  attempts (Z.to_nat max_retries) 1 video_uid input_object_name.

End WithReplicate.

End ASR.

Module Observations.

Import Persistence.

(** The statements of a run that the database answered with a command tag
    counting one inserted row. *)
Definition inserted_rows (tr : list (occurrence_insert * exec_outcome)) : nat :=
  length (List.filter
            (fun p => match snd p with
                      | Completed tag => is_substring "INSERT 0 1" tag
                      | _ => false
                      end) tr).

(** The statements that completed without inserting (ON CONFLICT DO NOTHING). *)
Definition conflicts (tr : list (occurrence_insert * exec_outcome)) : nat :=
  length (List.filter
            (fun p => match snd p with
                      | Completed tag => negb (is_substring "INSERT 0 1" tag)
                      | _ => false
                      end) tr).

Definition completed (o : exec_outcome) : Prop := exists tag, o = Completed tag.

(** An annotation that names one of the segments by a non-negative index
    and carries a [fine_id]. *)
Definition names_a_segment (segment_ids : list Z) (ann : pyval) : Prop :=
  exists d i fine_id,
    ann = PDict d /\ get "segment_index" d = Some (PInt i) /\
    0 <= i < Z.of_nat (length segment_ids) /\ get "fine_id" d = Some fine_id.

(** The statement is the INSERT for the annotation: the id of the segment
    its index names, and its [fine_id]. *)
Definition inserts_for (segment_ids : list Z) (ann : pyval) (stmt : occurrence_insert)
  : Prop :=
  exists d i,
    ann = PDict d /\ get "segment_index" d = Some (PInt i) /\
    segment_ids !! Z.to_nat i = Some (oi_segment_id stmt) /\
    get "fine_id" d = Some (oi_fine_id stmt).

(** The function a function response answers. *)
Definition answered_name (fr : Vertex.function_response) : string :=
  match fr with
  | Vertex.FunctionResult name _ | Vertex.FunctionError name _ => name
  end.

(** The annotation index stored in a [first_error]. *)
Definition error_index (r : error_record) : nat :=
  match r with PgDetail i _ | Generic i _ => i end.

(** The attempts a run of the transcoding service made, and the seconds it
    slept between them. *)
Definition attempts_made (tr : list Transcoding.event) : nat :=
  length (List.filter
            (fun e => match e with Transcoding.Attempted _ => true | _ => false end) tr).

Definition seconds_slept (tr : list Transcoding.event) : Z :=
  fold_right (fun e acc => match e with Transcoding.Slept s => s + acc | _ => acc end)
             0 tr.

(** Attempts 1 to [k] with a sleep of [base * 2 ^ (j - 1)] seconds after
    each attempt [j] but the last. *)
Definition transcoding_schedule (base k : Z) : list Transcoding.event :=
  flat_map (fun j => [Transcoding.Attempted j; Transcoding.Slept (base * 2 ^ (j - 1))])
           (seqZ 1 (k - 1))
  ++ [Transcoding.Attempted k].

Definition asr_attempts_made (tr : list ASR.event) : nat :=
  length (List.filter (fun e => match e with ASR.Attempted _ => true | _ => false end) tr).

Definition asr_sleeps (tr : list ASR.event) : nat :=
  length (List.filter (fun e => match e with ASR.Slept _ => true | _ => false end) tr).

Definition asr_schedule (base k : Z) : list ASR.event :=
  flat_map (fun j => [ASR.Attempted j; ASR.Slept (base * 2 ^ (j - 1))])
           (seqZ 1 (k - 1))
  ++ [ASR.Attempted k].

(** A transcoding result is either a success with the manifest under the
    output prefix, or a failure with a message and no path. *)
Definition well_formed (output_uri : string) (r : Transcoding.TranscodeResult) : Prop :=
  Transcoding.status r = "success" /\
  Transcoding.hls_path r = Some (output_uri +:+ "manifest.m3u8") /\
  Transcoding.error_message r = None
  \/ Transcoding.status r = "failed" /\ Transcoding.hls_path r = None /\
     exists text, Transcoding.error_message r = Some text.

(** A transcript carries the two URIs under the video's prefix of the
    transcript bucket, and lasts until the end of its last segment. *)
Definition transcript_of (transcript_bucket video_uid : string) (r : ASR.ASRResult)
  : Prop :=
  ASR.asr_json_uri r = "gs://" +:+ transcript_bucket +:+ "/" +:+ video_uid +:+ "/asr.json" /\
  ASR.vtt_uri r = "gs://" +:+ transcript_bucket +:+ "/" +:+ video_uid +:+ "/subs.vtt" /\
  ASR.duration_seconds r = match last (ASR.segments r) with
                           | Some s => ASR.t_end s
                           | None => PFin 0
                           end.

End Observations.

(** * Properties *)

Import Statements.

(** ** Annotators *)

Section AnnotatorFacts.

Import Annotators Orchestrators.

Lemma isinstance_int_spec v : isinstance_int v = true <-> is_int v.
Proof.
  unfold is_int; destruct v; simpl; split; intros H;
    try discriminate; try (destruct H; discriminate); eauto.
Qed.

Lemma unit_score_spec v :
  isinstance_int_float v && between 0 v 1 = true <-> unit_score v.
Proof.
  unfold unit_score, between.
  destruct v as [| b | z | f | s | l | d]; simpl;
    try (split; [discriminate | intros (q & Hq & _); discriminate]).
  - split; [intros H | intros (q & Hq & H0 & H1)].
    + apply andb_true_iff in H as [H0 H1].
      apply Qle_bool_iff in H0, H1. eauto.
    + inversion Hq; subst. apply andb_true_iff; split; now apply Qle_bool_iff.
  - split; [intros H | intros (q & Hq & H0 & H1)].
    + apply andb_true_iff in H as [H0 H1].
      apply Qle_bool_iff in H0, H1. eauto.
    + inversion Hq; subst. apply andb_true_iff; split; now apply Qle_bool_iff.
  - destruct f as [q | neg |]; simpl.
    + split; [intros H | intros (q' & Hq & H0 & H1)].
      * apply andb_true_iff in H as [H0 H1].
        apply Qle_bool_iff in H0, H1. eauto.
      * inversion Hq; subst. apply andb_true_iff; split; now apply Qle_bool_iff.
    + split; [destruct neg; discriminate | intros (q & Hq & _); discriminate].
    + split; [discriminate | intros (q & Hq & _); discriminate].
Qed.

Lemma span_in_range_spec vs ve len :
  isinstance_int vs && isinstance_int ve && span_in_range vs ve len = true <->
  exists s e, int_value vs = Some s /\ int_value ve = Some e /\
              0 <= s /\ s < e /\ e <= len.
Proof.
  unfold span_in_range. split.
  - intros H. apply andb_true_iff in H as [_ H].
    destruct (int_value vs) as [s|]; [|discriminate].
    destruct (int_value ve) as [e|]; [|discriminate].
    exists s, e.
    apply andb_true_iff in H as [H H2]. apply andb_true_iff in H as [H0 H1].
    apply Z.leb_le in H0, H2. apply Z.ltb_lt in H1. auto.
  - intros (s & e & Hs & He & H1 & H2 & H3).
    assert (isinstance_int vs = true) by (apply isinstance_int_spec; eexists; eauto).
    assert (isinstance_int ve = true) by (apply isinstance_int_spec; eexists; eauto).
    rewrite Hs, He, H, H0. simpl.
    apply Z.leb_le in H1, H3. apply Z.ltb_lt in H2.
    now rewrite H1, H2, H3.
Qed.

Lemma rationale_spec (v : pyval) :
  match v with
  | PStr r => if (String.length r =? 0)%nat then false else true
  | _ => false
  end = true <-> exists r, v = PStr r /\ r <> "".
Proof.
  destruct v as [| ? | ? | ? | r | ? | ?]; try (split; [discriminate | intros (r' & H & _); discriminate]).
  destruct r; simpl; split; try discriminate.
  - intros (r' & H & Hne). inversion H; subst. congruence.
  - intros _. eexists; split; [reflexivity | discriminate].
  - intros _. reflexivity.
Qed.

Ltac break_accepted :=
  repeat match goal with
         | H : _ /\ _ |- _ => destruct H
         | H : exists _, _ |- _ => destruct H
         | H : Some _ = Some _ |- _ => injection H as H; try subst
         | H : PDict _ = PDict _ |- _ => injection H as H; try subst
         end.

Ltac reject :=
  split;
  [ discriminate
  | let Hacc := fresh "Hacc" in
    intros Hacc; break_accepted; try discriminate; try congruence;
    match goal with
    | Hs : false = true <-> ?P, H : ?P |- _ => apply Hs in H; discriminate
    end ].

(** The word annotator's validator accepts exactly the annotations that
    satisfy [accepted]. *)
Lemma word_validate_annotation_spec ann seg :
  word_validate_annotation ann seg = true <-> accepted ann seg.
Proof.
  unfold word_validate_annotation, accepted, required, contains, item.
  cbn [forallb].
  destruct (get "segment_index" ann) as [si|] eqn:Esi; [| reject].
  destruct (get "fine_id" ann) as [fid|] eqn:Efid; [| reject].
  destruct (get "span" ann) as [sp|] eqn:Esp; [| reject].
  destruct (get "rationale" ann) as [ra|] eqn:Era; [| reject].
  destruct (get "visual_comprehensibility" ann) as [vc|] eqn:Evc;
    [| reject].
  destruct (get "textual_comprehensibility" ann) as [tc|] eqn:Etc;
    [| reject].
  cbn [andb negb].
  rewrite <- !negb_andb.
  pose proof (isinstance_int_spec si) as Hsi.
  pose proof (isinstance_int_spec fid) as Hfid.
  pose proof (unit_score_spec vc) as Hvc.
  pose proof (unit_score_spec tc) as Htc.
  pose proof (rationale_spec ra) as Hra.
  destruct (isinstance_int si); [| reject].
  destruct (isinstance_int fid); [| reject].
  destruct (isinstance_int_float vc && between 0 vc 1);
    [| reject].
  destruct (isinstance_int_float tc && between 0 tc 1);
    [| reject].
  cbn [negb].
  destruct sp as [| ? | ? | ? | ? | ? | span];
    try (reject).
  destruct (get "start" span) as [vs|] eqn:Evs; [| reject].
  destruct (get "end" span) as [ve|] eqn:Eve; [| reject].
  cbn [negb orb].
  pose proof (span_in_range_spec vs ve (Z.of_nat (len (seg_text seg)))) as Hspan.
  rewrite <- negb_andb.
  destruct (isinstance_int vs && isinstance_int ve) eqn:Eints; cbn [negb andb] in *.
  - destruct (span_in_range vs ve _); cbn [negb].
    + rewrite Hra. split.
      * intros (r & -> & Hne).
        destruct (proj1 Hspan eq_refl) as (s & e & Hs & He & Hr).
        split; [eexists; split; [reflexivity | apply Hsi; reflexivity] |].
        split; [eexists; split; [reflexivity | apply Hfid; reflexivity] |].
        split; [exists span, vs, ve, s, e; tauto |].
        split; [eexists; split; [reflexivity | apply Hvc; reflexivity] |].
        split; [eexists; split; [reflexivity | apply Htc; reflexivity] |].
        eauto.
      * intros (_ & _ & _ & _ & _ & (r & H & Hne)). inversion H; subst. eauto.
    + split; [discriminate |].
      intros (_ & _ & (sp' & vs' & ve' & s & e & H & H1 & H2 & Hr) & _).
      inversion H; subst. rewrite Evs in H1. rewrite Eve in H2.
      inversion H1; inversion H2; subst.
      assert (false = true) by (apply Hspan; eauto). discriminate.
  - split; [discriminate |].
    intros (_ & _ & (sp' & vs' & ve' & s & e & H & H1 & H2 & Hr) & _).
    inversion H; subst. rewrite Evs in H1. rewrite Eve in H2.
    inversion H1; inversion H2; subst.
    assert (false = true) by (apply Hspan; eauto). discriminate.
Qed.

Lemma validate_annotation_spec k ann seg :
  validate_annotation k ann seg = true <-> accepted ann seg.
Proof. destruct k; apply word_validate_annotation_spec. Qed.

(** On a list of dicts the validation loop never raises: it returns the
    accepted ones in order and warns once for each of the others. *)
Lemma filter_valid_dicts k seg i (ds : list dict) :
  filter_valid k seg i (map PDict ds) =
  (inl (map PDict (List.filter (fun d => validate_annotation k d seg) ds)),
   map (fun d => LogWarningInvalid i (PDict d))
       (List.filter (fun d => negb (validate_annotation k d seg)) ds)).
Proof.
  induction ds as [| d ds IH]; [reflexivity |].
  cbn [map filter_valid validate_item List.filter].
  rewrite IH. destruct (validate_annotation k d seg); reflexivity.
Qed.

(** C6, as amended. Both annotators' [validate_annotation] accept an
    annotation if and only if: the six required fields are present;
    [segment_index] and [fine_id] are Python ints (the index is not compared
    with the index of the segment being processed); [span] is a dict whose
    [start] and [end] are ints with [0 <= start < end <= len(segment.text)];
    both comprehensibility scores are finite numbers in [0,1]; [rationale]
    is a non-empty string. [_process_segment] keeps the accepted
    annotations in order and logs one warning for each rejected one. *)
Theorem C6_validate_accepts_iff (k : annotator_kind) (ann : dict) (seg : segment)
    (i : nat) (ds : list dict) :
  (validate_annotation k ann seg = true <-> accepted ann seg) /\
  filter_valid k seg i (map PDict ds) =
  (inl (map PDict (List.filter (fun d => validate_annotation k d seg) ds)),
   map (fun d => LogWarningInvalid i (PDict d))
       (List.filter (fun d => negb (validate_annotation k d seg)) ds)).
Proof. split; [apply validate_annotation_spec | apply filter_valid_dicts]. Qed.

(** The bound of a span is the number of characters of the text, not of the
    bytes that encode it: on a text of four characters, one of them
    accented, a span ending at 4 is accepted and a span ending at 5 is not. *)
Example span_bound_counts_characters :
  let seg := mkSegment 0%Q 1%Q "café" "en" in
  len (seg_text seg) = 4%nat /\
  Annotators.validate_annotation Annotators.word_sense
    (Examples.annotation 0 23456 0 4) seg = true /\
  Annotators.validate_annotation Annotators.phrase_sense
    (Examples.annotation 0 23456 0 5) seg = false.
Proof. repeat split; reflexivity. Qed.

(** C6 as stated fails: while segment 0 is processed, an annotation whose
    [segment_index] is 7 passes the validator. *)
Lemma C6_counterexample :
  let ann : dict :=
    [("segment_index", PInt 7); ("fine_id", PInt 23456);
     ("span", PDict [("start", PInt 10); ("end", PInt 17)]);
     ("rationale", PStr "phrasal verb");
     ("visual_comprehensibility", PFloat (PFin (17 # 20)));
     ("textual_comprehensibility", PFloat (PFin (7 # 10)))] in
  let seg := mkSegment 0%Q (7 # 2)%Q "I want to give up learning English" "en" in
  validate_annotation word_sense ann seg = true /\
  validate_annotation phrase_sense ann seg = true /\
  ~ accepted_for_index 0 ann seg.
Proof.
  cbv zeta. split; [reflexivity |]. split; [reflexivity |].
  intros (_ & v & H & Hi). cbn in H. injection H as <-. discriminate Hi.
Qed.

End AnnotatorFacts.

(** ** Annotation orchestrator: merging the segment tasks *)

Section OrchestratorFacts.

Import Annotators Orchestrators.

Variable call_with_tools_result : nat -> annotator_kind -> pyval + Vertex.vertex_error.

Abbreviation process_segment := (_process_segment call_with_tools_result).
Abbreviation task := (fun idx seg => fst (process_one call_with_tools_result idx seg)).
Abbreviation output := (_process_segments_concurrent call_with_tools_result).

(** A task whose two annotator calls return contributes the phrase
    annotations followed by the word annotations. *)
Lemma process_one_returns idx seg P W :
  fst (process_segment seg idx phrase_sense) = inl P ->
  fst (process_segment seg idx word_sense) = inl W ->
  fst (process_one call_with_tools_result idx seg) = P ++ W.
Proof.
  unfold process_one. intros HP HW.
  destruct (process_segment seg idx phrase_sense) as [rp lp].
  destruct (process_segment seg idx word_sense) as [rw lw].
  cbn in HP, HW. subst. reflexivity.
Qed.

(** A task one of whose annotator calls lets an exception escape contributes
    nothing. *)
Lemma process_one_fails idx seg e :
  fst (process_segment seg idx phrase_sense) = inr e \/
  fst (process_segment seg idx word_sense) = inr e ->
  fst (process_one call_with_tools_result idx seg) = [].
Proof.
  unfold process_one. intros H.
  destruct (process_segment seg idx phrase_sense) as [rp lp].
  destruct (process_segment seg idx word_sense) as [rw lw].
  cbn in H. destruct rp, rw; destruct H as [H | H]; try discriminate; reflexivity.
Qed.

(** The output splits at any segment into what the earlier segments gave,
    the segment's own batch, and what the later segments give. *)
Lemma output_split (segments : list segment) i seg :
  segments !! i = Some seg ->
  output segments =
  output (take i segments)
  ++ task i seg
  ++ concat (imap (fun j s => task (S i + j)%nat s) (drop (S i) segments)).
Proof.
  intros Hi. unfold _process_segments_concurrent.
  rewrite <- (take_drop_middle segments i seg Hi) at 1.
  rewrite imap_app, concat_app. f_equal.
  assert (Hlen : length (take i segments) = i).
  { apply length_take_le. apply lookup_lt_Some in Hi. now apply Nat.lt_le_incl. }
  rewrite Hlen, imap_cons. cbn [concat]. rewrite Nat.add_0_r. f_equal.
  f_equal. apply imap_ext. intros j s _. cbn. now rewrite Nat.add_succ_r.
Qed.

Lemma output_all_from (Pf Wf : nat -> list pyval) (segments : list segment) n :
  (forall j seg, segments !! j = Some seg ->
                 task (n + j)%nat seg = Pf (n + j)%nat ++ Wf (n + j)%nat) ->
  concat (imap (fun j s => task (n + j)%nat s) segments) =
  concat (map (fun i => Pf i ++ Wf i) (seq n (length segments))).
Proof.
  revert n. induction segments as [| seg rest IH]; intros n H; [reflexivity |].
  rewrite imap_cons. cbn [length seq map concat].
  rewrite (H 0%nat seg eq_refl), Nat.add_0_r. f_equal.
  rewrite <- (IH (S n)).
  - f_equal. apply imap_ext. intros j s _. cbn. now rewrite Nat.add_succ_r.
  - intros j s Hj. specialize (H (S j) s Hj).
    rewrite Nat.add_succ_r in H. exact H.
Qed.

(** C5. The list returned by [_process_segments_concurrent] is the
    concatenation, in the order of the segment indices, of the segments'
    batches. For a segment whose phrase annotator returned the valid items
    [P] and whose word annotator returned the valid items [W], the batch is
    [P ++ W]: it sits after everything the earlier segments gave and before
    everything the later ones give, and has [length P + length W] items.
    When this holds of every segment, the output is the concatenation of
    [P 0 ++ W 0], [P 1 ++ W 1], ... *)
Theorem C5_output_in_segment_order (segments : list segment) (i : nat)
    (seg : segment) (P W : list pyval) :
  segments !! i = Some seg ->
  fst (process_segment seg i phrase_sense) = inl P ->
  fst (process_segment seg i word_sense) = inl W ->
  output segments =
    output (take i segments) ++ (P ++ W)
    ++ concat (imap (fun j s => task (S i + j)%nat s) (drop (S i) segments))
  /\ length (P ++ W) = (length P + length W)%nat
  /\ (forall Pf Wf : nat -> list pyval,
        (forall j s, segments !! j = Some s ->
                     fst (process_segment s j phrase_sense) = inl (Pf j) /\
                     fst (process_segment s j word_sense) = inl (Wf j)) ->
        output segments =
        concat (map (fun j => Pf j ++ Wf j) (seq 0 (length segments)))).
Proof.
  intros Hi HP HW. split; [| split].
  - rewrite (output_split segments i seg Hi).
    now rewrite (process_one_returns i seg P W HP HW).
  - apply length_app.
  - intros Pf Wf Hall. unfold _process_segments_concurrent.
    apply (output_all_from Pf Wf segments 0).
    intros j s Hj. destruct (Hall j s Hj) as [Hp Hw].
    now apply process_one_returns.
Qed.

End OrchestratorFacts.

(** The theorem at work on a run of two segments: segment 0 yields one
    phrase and one of two proposed words, the calls for segment 1 fail. *)
Lemma C5_witness :
  Orchestrators._process_segments_concurrent Examples.lm_run
    [Examples.seg0; Examples.seg1]
  = [] ++ ([PDict Examples.ann_give_up] ++ [PDict Examples.ann_learn]) ++ [].
Proof.
  exact (proj1 (C5_output_in_segment_order Examples.lm_run
                  [Examples.seg0; Examples.seg1] 0 Examples.seg0
                  [PDict Examples.ann_give_up] [PDict Examples.ann_learn]
                  eq_refl eq_refl eq_refl)).
Defined.

(** ** Language-model driver: the function-call loop *)

Section DriverFacts.

Import Vertex.

Variable chat : Type.
Variable send_message : chat -> message -> chat * option response.
Variable world : Type.
Variable tool_handler : string -> dict -> world -> world * (pyval + string).
Variable clean_and_loads : string -> option pyval.

Abbreviation run_tools := (execute_function_calls world tool_handler).
Abbreviation loop := (function_call_loop chat send_message world tool_handler clean_and_loads).
Abbreviation in_order := (executed_in_order world tool_handler).
Abbreviation statement := (loop_statement chat send_message world tool_handler clean_and_loads).

Lemma execute_function_calls_in_order fcs w :
  exists calls,
    in_order fcs w calls (fst (fst (run_tools fcs w))) /\
    snd (fst (run_tools fcs w)) = map (fun p => response_part (fst p) (snd p)) calls /\
    snd (run_tools fcs w) = map (fun p => ToolCalled (fst p) (snd p)) calls /\
    map fst calls = fcs.
Proof.
  revert w. induction fcs as [| fc rest IH]; intros w.
  - exists []. repeat split. constructor.
  - cbn [execute_function_calls].
    destruct (tool_handler (fc_name fc) (fc_args fc) w) as [w1 outcome] eqn:Eh.
    destruct (IH w1) as (calls & Hin & Hfr & Hev & Hfst).
    destruct (run_tools rest w1) as [[w2 frs] evs]. cbn in *.
    exists ((fc, outcome) :: calls). cbn. subst. repeat split.
    econstructor; eauto.
Qed.

Lemma tool_rounds_app evs1 evs2 :
  tool_rounds (evs1 ++ evs2) = (tool_rounds evs1 + tool_rounds evs2)%nat.
Proof. unfold tool_rounds. now rewrite List.filter_app, length_app. Qed.

Lemma tool_rounds_calls (calls : list (function_call * (pyval + string))) :
  tool_rounds (map (fun p => ToolCalled (fst p) (snd p)) calls) = 0%nat.
Proof. induction calls as [| p calls IH]; [reflexivity | exact IH]. Qed.

Lemma extract_function_calls_spec r :
  _extract_function_calls r = reply_function_calls r.
Proof.
  unfold _extract_function_calls, reply_function_calls.
  induction (candidates r) as [| cand cs IH]; [reflexivity |].
  cbn [map concat calls_of_candidates]. now rewrite IH.
Qed.

Lemma parse_response_spec r :
  parsed_as_json clean_and_loads r (_parse_response clean_and_loads r).
Proof.
  unfold _parse_response. destruct r as [[| [[| [fc [text |]] parts]] rest]]; cbn.
  - constructor.
  - constructor.
  - destruct (clean_and_loads text) eqn:E; now constructor.
  - constructor.
Qed.

Lemma final_result_spec r :
  returned_or_lost_in_logging (_parse_response clean_and_loads r)
                              (final_result clean_and_loads r).
Proof.
  unfold final_result.
  destruct (_parse_response clean_and_loads r) as [data | e]; [| now left].
  destruct (logs_final_result data) eqn:Hlog; [now left |].
  right. exists data. auto.
Qed.

Lemma function_call_loop_statement remaining c w r :
  (remaining <= max_iterations)%nat ->
  (exists specified,
     statement (max_iterations - remaining) c w r (snd (loop remaining c w r)) specified /\
     returned_or_lost_in_logging specified (snd (fst (loop remaining c w r)))) /\
  (tool_rounds (snd (loop remaining c w r)) <= remaining)%nat.
Proof.
  revert c w r. induction remaining as [| n IH]; intros c w r Hle.
  - rewrite Nat.sub_0_r. cbn [function_call_loop fst snd].
    split; [| apply Nat.le_refl].
    eexists. split; [apply loop_cap_reached, parse_response_spec | now left].
  - cbn [function_call_loop].
    assert (Hlt : (max_iterations - S n < max_iterations)%nat) by (unfold max_iterations in *; lia).
    destruct (_extract_function_calls r) as [| fc fcs] eqn:Efc.
    + cbn. split; [| apply Nat.le_0_l].
      eexists. split; [| apply final_result_spec].
      apply loop_no_function_calls;
        [exact Hlt | now rewrite <- extract_function_calls_spec | apply parse_response_spec].
    + rewrite <- Efc.
      destruct (execute_function_calls_in_order (_extract_function_calls r) w)
        as (calls & Hin & Hfr & Hev & _).
      destruct (run_tools (_extract_function_calls r) w) as [[w' frs] evs].
      cbn in Hin, Hfr, Hev. subst frs evs.
      assert (Hne : reply_function_calls r <> [])
        by (rewrite <- extract_function_calls_spec, Efc; discriminate).
      rewrite extract_function_calls_spec in Hin.
      fold (gathered calls).
      destruct (send_message c (gathered calls)) as [c' [r' |]] eqn:Esend.
      * assert (Hn : (n <= max_iterations)%nat) by lia.
        destruct (IH c' w' r' Hn) as [(specified & Hst & Hret) Hrounds].
        replace (max_iterations - n)%nat with (S (max_iterations - S n)) in Hst
          by (unfold max_iterations in *; lia).
        destruct (loop n c' w' r') as [[[c'' w''] result] evs']. cbn [fst snd] in *.
        split.
        -- exists specified. split; [eapply loop_continues; eauto | exact Hret].
        -- rewrite tool_rounds_app, tool_rounds_calls.
           change (S (tool_rounds evs') <= S n)%nat. lia.
      * cbn [fst snd]. split.
        -- eexists. split; [eapply loop_send_raises; eauto | now left].
        -- rewrite tool_rounds_app, tool_rounds_calls.
           change (1 <= S n)%nat. lia.
Qed.

(** The parts of C4 that hold. One invocation of the driver sends the
    prompt and then follows the function-call loop of the specification
    from iteration 0: while fewer than [max_iterations] = 10 iterations are
    done, a reply with function calls has all of them executed by the tool
    handler in the order of the reply, their responses go back in one
    message and the loop goes on; at the cap the last reply is parsed and
    returned; at most 10 messages of function responses are sent. A reply
    without function calls ends the loop and is parsed, and it is returned
    unless logging it raises. *)
Lemma call_with_tools_follows_the_loop (prompt : string) (c : chat) (w : world) :
  let run := call_with_tools chat send_message world tool_handler clean_and_loads
                             prompt c w in
  match send_message c (Prompt prompt) with
  | (c', Some r) =>
      exists evs specified,
        snd run = Sent (Prompt prompt) (Some r) :: evs /\
        statement 0 c' w r evs specified /\
        returned_or_lost_in_logging specified (snd (fst run)) /\
        (tool_rounds evs <= max_iterations)%nat
  | (_, None) =>
      snd (fst run) = inr SendFailed /\ snd run = [Sent (Prompt prompt) None]
  end.
Proof.
  cbv zeta. unfold call_with_tools.
  destruct (send_message c (Prompt prompt)) as [c' [r |]]; [| split; reflexivity].
  destruct (function_call_loop_statement max_iterations c' w r (Nat.le_refl _))
    as [(specified & Hst & Hret) Hrounds].
  rewrite Nat.sub_diag in Hst.
  destruct (loop max_iterations c' w r) as [[[c'' w'] result] evs].
  cbn [fst snd] in *. exists evs, specified. auto.
Qed.

End DriverFacts.

(** C4, where the code departs from it. The reply has no function call and
    its text parses to a JSON object with two annotations, the second with
    a [null] rationale. The claim has it parsed and returned. The driver
    parses it, but logging its second item raises, and the driver raises
    [VertexError]; the same reply met at the iteration cap is parsed and
    returned. For the orchestrator the call has then failed, and the first
    annotation, which the validator accepts, is lost with the second. *)
Theorem C4_final_reply_not_returned :
  let data := Examples.reply [Examples.ann_give_up; Examples.ann_null_rationale] in
  let loads (text : string) := Some data in
  let run := Vertex.call_with_tools nat Examples.always_final unit
               Examples.no_candidates_handler loads "prompt" 0%nat tt in
  reply_function_calls Examples.final_reply = [] /\
  parsed_as_json loads Examples.final_reply (inl data) /\
  snd (fst run) = inr Vertex.FinalLogFailed /\
  snd run = [Vertex.Sent (Vertex.Prompt "prompt") (Some Examples.final_reply)] /\
  snd (fst (Vertex.function_call_loop nat Examples.always_final unit
              Examples.no_candidates_handler loads 0 1%nat tt Examples.final_reply))
  = inl data /\
  fst (Orchestrators._process_segment (fun _ _ => snd (fst run)) Examples.seg0 0
                                      Annotators.phrase_sense)
  = inl [] /\
  fst (Orchestrators._process_segment (fun _ _ => inl data) Examples.seg0 0
                                      Annotators.phrase_sense)
  = inl [PDict Examples.ann_give_up].
Proof.
  cbv zeta. split; [reflexivity |]. split; [now constructor |].
  repeat split; reflexivity.
Qed.

(** The cap is reached: against a model that always asks for another tool
    call the driver makes exactly ten rounds, then parses the eleventh
    reply. *)
Example driver_stops_at_cap :
  let run := Vertex.call_with_tools nat Examples.always_calls unit
               Examples.no_candidates_handler (fun _ => None) "prompt" 0%nat tt in
  tool_rounds (snd run) = 10%nat /\
  length (snd run) = 21%nat /\
  snd (fst run) = inr Vertex.NoText /\
  fst (fst (fst run)) = 11%nat.
Proof. repeat split; reflexivity. Qed.

(** ** Persistence: the occurrence loop *)

Section PersistenceFacts.

Import Persistence.

Variable conn : Type.
Variable execute : conn -> occurrence_insert -> conn * exec_outcome.
Variable upsert_segment : conn -> Z -> segment -> conn * option Z.

Abbreviation pass := (loop_pass conn execute).
Abbreviation occurrences_from := (insert_loop conn execute).

Lemma prepare_method segment_ids ann method ontology_ver stmt :
  prepare segment_ids ann method ontology_ver = Statement stmt ->
  oi_detection_method stmt = method /\ oi_ontology_ver stmt = ontology_ver.
Proof.
  unfold prepare. intros H.
  repeat match type of H with
         | match ?x with _ => _ end = _ => destruct x; try discriminate
         | (if ?b then _ else _) = _ => destruct b; try discriminate
         end;
    injection H as <-; split; reflexivity.
Qed.

(** A pass issues at most one statement, and it carries [method]. *)
Lemma loop_pass_method segment_ids method ontology_ver idx ann c t stmt o :
  In (stmt, o) (snd (fst (pass segment_ids method ontology_ver idx ann c t))) ->
  oi_detection_method stmt = method.
Proof.
  unfold loop_pass.
  destruct (prepare segment_ids ann method ontology_ver) as [| st | msg] eqn:Eprep;
    cbn; try tauto.
  destruct (execute c st) as [c' out].
  apply prepare_method in Eprep as [Hm _].
  assert (Hin : In (stmt, o) [(st, out)] -> oi_detection_method stmt = method).
  { intros [Heq | []]. injection Heq as <- <-. exact Hm. }
  destruct out as [tag | e | msg | msg]; cbn.
  - exact Hin.
  - destruct (pg_foreign_key_violation e); [exact Hin |].
    destruct (is_this_detail _ idx); exact Hin.
  - destruct (_ || _); [exact Hin |].
    destruct (same_error_text _ msg); exact Hin.
  - exact Hin.
Qed.

Lemma insert_loop_method segment_ids method ontology_ver annotations :
  forall idx c t stmt o,
    In (stmt, o)
       (snd (fst (occurrences_from segment_ids method ontology_ver idx annotations c t))) ->
    oi_detection_method stmt = method.
Proof.
  induction annotations as [| ann rest IH]; intros idx c t stmt o; cbn; [tauto |].
  pose proof (loop_pass_method segment_ids method ontology_ver idx ann c t stmt o) as Hp.
  destruct (pass segment_ids method ontology_ver idx ann c t) as [[[c' r] tr] log].
  cbn in Hp. destruct r as [t' | raised]; cbn; [| exact Hp].
  specialize (IH (S idx) c' t' stmt o).
  destruct (occurrences_from segment_ids method ontology_ver (S idx) rest c' t')
    as [[[c'' r'] tr'] log'].
  cbn in *. intros Hin. apply in_app_or in Hin as [Hin | Hin]; auto.
Qed.

(** Every occurrence INSERT that [save_video_analysis] issues records the
    [method] it was called with. *)
Lemma save_video_analysis_method c video_id segments annotations method ontology_ver
    stmt o :
  In (stmt, o)
     (snd (fst (save_video_analysis conn execute upsert_segment c video_id segments
                                    annotations method ontology_ver))) ->
  oi_detection_method stmt = method.
Proof.
  unfold save_video_analysis, _insert_occurrences.
  destruct (_insert_segments conn upsert_segment c video_id segments) as [c1 [ids |]];
    cbn; [| tauto].
  pose proof (insert_loop_method ids method ontology_ver annotations 0 c1
                                 (mkTotals 0 0 None) stmt o) as H.
  destruct (occurrences_from ids method ontology_ver 0 annotations c1 (mkTotals 0 0 None))
    as [[[c2 r] tr] log].
  destruct r; exact H.
Qed.

(** What one pass does, case by case. *)
Lemma loop_pass_skips_invalid_index segment_ids method ontology_ver idx ann c t :
  prepare segment_ids ann method ontology_ver = SkipInvalid ->
  pass segment_ids method ontology_ver idx ann c t =
  (c, inl (mkTotals (inserted t) (S (skipped t)) (first_error t)), [],
   [WarnInvalidSegmentIndex idx]).
Proof. unfold loop_pass. now intros ->. Qed.

(** A missing [segment_index], a null one, and an int at or beyond the
    number of segments are the skipped cases. *)
Lemma prepare_skips (segment_ids : list Z) (d : dict) method ontology_ver :
  get "segment_index" d = None \/ get "segment_index" d = Some PNone \/
  (exists i, get "segment_index" d = Some (PInt i) /\ Z.of_nat (length segment_ids) <= i) ->
  prepare segment_ids (PDict d) method ontology_ver = SkipInvalid.
Proof.
  unfold prepare, get_default.
  intros [-> | [-> | (i & -> & Hi)]]; try reflexivity.
  cbn [num_value float_le].
  replace (Qle_bool (inject_Z (Z.of_nat (length segment_ids))) (inject_Z i)) with true;
    [reflexivity |].
  symmetry. apply Qle_bool_iff. now rewrite <- Zle_Qle.
Qed.

Lemma loop_pass_completed segment_ids method ontology_ver idx ann c t stmt c' tag :
  prepare segment_ids ann method ontology_ver = Statement stmt ->
  execute c stmt = (c', Completed tag) ->
  pass segment_ids method ontology_ver idx ann c t =
  (c', inl (mkTotals (if is_substring "INSERT 0 1" tag
                      then S (inserted t) else inserted t)
                     (skipped t) (first_error t)),
   [(stmt, Completed tag)], []).
Proof. unfold loop_pass. now intros -> ->. Qed.

Lemma loop_pass_foreign_key segment_ids method ontology_ver idx ann c t stmt c' e :
  prepare segment_ids ann method ontology_ver = Statement stmt ->
  execute c stmt = (c', RaisedPostgresError e) ->
  pg_foreign_key_violation e = true ->
  exists t' log,
    pass segment_ids method ontology_ver idx ann c t =
    (c', inl t', [(stmt, RaisedPostgresError e)], log) /\
    inserted t' = inserted t /\ skipped t' = S (skipped t) /\
    In (WarnForeignKeySkipped idx) log.
Proof.
  unfold loop_pass. intros -> -> ->.
  eexists _, _. split; [reflexivity |]. cbn. auto.
Qed.

Lemma loop_pass_first_error_raised segment_ids method ontology_ver idx ann c t stmt c' e :
  prepare segment_ids ann method ontology_ver = Statement stmt ->
  execute c stmt = (c', RaisedPostgresError e) ->
  pg_foreign_key_violation e = false ->
  first_error t = None ->
  pass segment_ids method ontology_ver idx ann c t =
  (c', inr (RaisedPostgresError e), [(stmt, RaisedPostgresError e)], [ErrorFirst idx]).
Proof.
  unfold loop_pass. intros -> -> -> ->. cbn. now rewrite Nat.eqb_refl.
Qed.

Lemma loop_pass_later_error_tallied segment_ids method ontology_ver idx ann c t stmt c' e
    earlier :
  prepare segment_ids ann method ontology_ver = Statement stmt ->
  execute c stmt = (c', RaisedPostgresError e) ->
  pg_foreign_key_violation e = false ->
  first_error t = Some earlier ->
  match earlier with
  | PgDetail i0 _ | Generic i0 _ => i0 <> idx
  end ->
  pass segment_ids method ontology_ver idx ann c t =
  (c', inl (mkTotals (inserted t) (S (skipped t)) (first_error t)),
   [(stmt, RaisedPostgresError e)], [DebugCascading idx]).
Proof.
  unfold loop_pass. intros -> -> -> Hfe Hne. rewrite Hfe. cbn.
  destruct earlier as [i0 e0 | i0 m0]; cbn; [| reflexivity].
  apply Nat.eqb_neq in Hne. now rewrite Hne.
Qed.

End PersistenceFacts.

(** C2, where the code departs from it. With two segments upserted as 101
    and 102, an annotation whose [segment_index] is -1 is out of range, yet
    it is not skipped: [segment_ids[-1]] is the last id, the INSERT is issued
    for segment 102 and counted as inserted. *)
Theorem C2_negative_index_not_skipped :
  let ann := PDict (Examples.annotation (-1) 23456 10 17) in
  Persistence.prepare [101; 102] ann "gemini_video" "gemini-2.0" <> Persistence.SkipInvalid /\
  exists stmt,
    Persistence.oi_segment_id stmt = 102 /\
    Persistence._insert_occurrences unit Examples.always_inserts tt [101; 102] [ann]
                                    "gemini_video" "gemini-2.0"
    = (tt, Persistence.Returned 1 0, [(stmt, Persistence.Completed "INSERT 0 1")], []).
Proof.
  cbv zeta. split; [discriminate |].
  eexists. split; [| reflexivity]. reflexivity.
Qed.

(** ** Cache fallback and the method tag *)

Section MethodTagFacts.

Import Annotators Orchestrators Persistence Workflow.

Variables CachedContent conn : Type.
Variable create_cached_content : option string -> list segment -> option CachedContent.
Variable call_with_tools_result :
  option CachedContent -> nat -> annotator_kind -> pyval + Vertex.vertex_error.
Variable execute : conn -> occurrence_insert -> conn * exec_outcome.
Variable upsert_segment : conn -> Z -> segment -> conn * option Z.

Abbreviation fallback :=
  (_create_cached_content_with_fallback CachedContent create_cached_content).

(** C3, as amended. Cache creation is attempted in the order multimodal
    (when a video URI is given), text-only, no cache; the first level that
    succeeds determines the method tag, an element of
    {gemini_video, gemini_text, gemini_nocache}; and every occurrence INSERT
    issued for the video records this tag as [detection_method]. *)
Theorem C3_method_tag (video_uri : option string) (segments : list segment)
    (raw_bucket gemini_model : string) (message : PubSubMessage) (job : IngestJob)
    (c : conn) :
  fallback video_uri segments =
    match (if Orchestrators.truthy video_uri
           then create_cached_content video_uri segments else None) with
    | Some cached_content => (Some cached_content, "gemini_video")
    | None =>
        match create_cached_content None segments with
        | Some cached_content => (Some cached_content, "gemini_text")
        | None => (None, "gemini_nocache")
        end
    end
  /\ In (snd (fallback video_uri segments)) method_tags
  /\ (forall stmt o,
        In (stmt, o)
           (snd (fst (annotate_and_persist create_cached_content call_with_tools_result
                        execute upsert_segment raw_bucket gemini_model message job
                        segments c))) ->
        oi_detection_method stmt =
        snd (fallback (Some ("gs://" +:+ raw_bucket +:+ "/" +:+ object_name message))
                      segments)).
Proof.
  assert (Hshape :
    fallback video_uri segments =
    match (if Orchestrators.truthy video_uri
           then create_cached_content video_uri segments else None) with
    | Some cached_content => (Some cached_content, "gemini_video")
    | None =>
        match create_cached_content None segments with
        | Some cached_content => (Some cached_content, "gemini_text")
        | None => (None, "gemini_nocache")
        end
    end).
  { unfold _create_cached_content_with_fallback, _create_cached_content.
    destruct (Orchestrators.truthy video_uri); [| reflexivity].
    destruct (create_cached_content video_uri segments); reflexivity. }
  split; [exact Hshape |]. split.
  - rewrite Hshape. unfold method_tags.
    destruct (if Orchestrators.truthy video_uri then _ else _); cbn; [tauto |].
    destruct (create_cached_content None segments); cbn; tauto.
  - clear Hshape. intros stmt o. unfold annotate_and_persist, process_video.
    destruct (fallback (Some _) segments) as [cached_content method]. cbn [snd].
    apply save_video_analysis_method.
Qed.

End MethodTagFacts.

(** C3 as stated fails: when the multimodal cache is created, the tag is
    [gemini_video], which is none of the specified tags. *)
Lemma C3_counterexample :
  let method :=
    snd (Orchestrators._create_cached_content_with_fallback unit
           (fun _ _ => Some tt) (Some "gs://raw/uploads/v.mp4") [Examples.seg0]) in
  method = "gemini_video" /\ ~ In method specified_method_tags.
Proof.
  cbv zeta. split; [reflexivity |].
  cbn. intros [H | [H | [H | []]]]; discriminate H.
Qed.

(** ** Persistence: the status update of a video *)

Section VideoStatusFacts.

Import Persistence.

Lemma truthy_spec (s : option string) :
  truthy s = true <-> exists p, s = Some p /\ p <> "".
Proof.
  destruct s as [p |]; cbn.
  - destruct (String.eqb_spec p ""); cbn; split.
    + discriminate.
    + intros (q & Hq & Hne). injection Hq as ->. contradiction.
    + eauto.
    + reflexivity.
  - split; [discriminate | intros (p & H & _); discriminate].
Qed.

(** C10. [update_video_status] leaves every row with another id as it is.
    In the row with the given id it writes [status] and [updated_at]; it
    writes [hls_path] when the argument is a non-empty string and keeps the
    stored value when the argument is [None] or empty; likewise for
    [structured_transcript_path]; every other column keeps its value. *)
Theorem C10_update_video_status_frame (now video_id : Z) (status : string)
    (hls_path transcript_path : option string) (videos : list video)
    (i : nat) (r : video) :
  videos !! i = Some r ->
  exists r',
    update_video_status now video_id status hls_path transcript_path videos !! i = Some r' /\
    (v_id r <> video_id -> r' = r) /\
    (v_id r = video_id ->
       v_status r' = status /\ v_updated_at r' = now /\
       (forall p, hls_path = Some p -> p <> "" -> v_hls_path r' = Some p) /\
       (hls_path = None \/ hls_path = Some "" -> v_hls_path r' = v_hls_path r) /\
       (forall p, transcript_path = Some p -> p <> "" ->
                  v_structured_transcript_path r' = Some p) /\
       (transcript_path = None \/ transcript_path = Some "" ->
          v_structured_transcript_path r' = v_structured_transcript_path r) /\
       v_id r' = v_id r /\ v_video_uid r' = v_video_uid r /\
       v_storage_path r' = v_storage_path r /\ v_rest r' = v_rest r).
Proof.
  intros Hi. unfold update_video_status.
  rewrite list_lookup_fmap, Hi. cbn [fmap option_fmap option_map].
  eexists. split; [reflexivity |].
  destruct (Z.eqb_spec (v_id r) video_id) as [Heq | Hne].
  - split; [contradiction |]. intros _. cbn.
    repeat split; try reflexivity.
    + intros p -> Hp. cbn. destruct (String.eqb_spec p ""); [contradiction | reflexivity].
    + intros [-> | ->]; reflexivity.
    + intros p -> Hp. cbn. destruct (String.eqb_spec p ""); [contradiction | reflexivity].
    + intros [-> | ->]; reflexivity.
  - split; [reflexivity | contradiction].
Qed.

End VideoStatusFacts.

(** The theorem at work on the finalize call after a failed transcoding:
    [hls_path=None] keeps the stored manifest path. *)
Lemma C10_witness :
  let stored :=
    Persistence.mkVideo 7 "6f8a" "PROCESSING" "gs://raw/uploads/6f8a/v.mp4"
                        (Some "gs://hls/6f8a/manifest.m3u8") None 100 [] in
  exists r',
    Persistence.update_video_status 200 7 "READY" None (Some "gs://tr/6f8a/asr.json")
                                    [stored] !! 0%nat = Some r' /\
    Persistence.v_hls_path r' = Some "gs://hls/6f8a/manifest.m3u8" /\
    Persistence.v_status r' = "READY".
Proof.
  cbv zeta.
  destruct (C10_update_video_status_frame 200 7 "READY" None
              (Some "gs://tr/6f8a/asr.json")
              [Persistence.mkVideo 7 "6f8a" "PROCESSING" "gs://raw/uploads/6f8a/v.mp4"
                                   (Some "gs://hls/6f8a/manifest.m3u8") None 100 []]
              0%nat _ eq_refl) as (r' & Hr' & _ & Hsame).
  exists r'. split; [exact Hr' |].
  destruct (Hsame eq_refl) as (Hst & _ & _ & Hhls & _).
  split; [rewrite (Hhls (or_introl eq_refl)); reflexivity | exact Hst].
Defined.

(** ** Catalog tool: creation of a fine unit *)

Section CreateFineUnitFacts.

Import MCPTools.

Variable md5_hexdigest : string -> string.

Abbreviation key_of := (external_key_of md5_hexdigest).
Abbreviation create := (create_fine_unit md5_hexdigest).

Lemma find_snoc {A : Type} (f : A -> bool) (l : list A) (x : A) :
  List.find f l = None -> f x = true -> List.find f (l ++ [x]) = Some x.
Proof.
  induction l as [| y l IH]; cbn; intros Hnone Hx.
  - now rewrite Hx.
  - destruct (f y); [discriminate | auto].
Qed.

(** After a creation, the catalog holds a row under the external key, and
    the creation returned that row's id. *)
Lemma create_then_select gemini_model utcnow lemma kind pos definition lang video_uid c :
  exists r row,
    create gemini_model utcnow lemma kind pos definition lang video_uid c
    = (Some r, snd (create gemini_model utcnow lemma kind pos definition lang video_uid c)) /\
    select_by_external_key (key_of gemini_model lemma definition)
      (snd (create gemini_model utcnow lemma kind pos definition lang video_uid c))
    = Some row /\
    cr_fine_id r = fu_id row.
Proof.
  unfold create_fine_unit, insert_fine_unit.
  destruct (select_by_external_key (key_of gemini_model lemma definition) c)
    as [existing |] eqn:Esel.
  - cbn. eexists _, existing. repeat split; [exact Esel].
  - cbn. eexists _, _. split; [reflexivity |]. split.
    + unfold select_by_external_key in *. cbn.
      apply find_snoc; [exact Esel |]. cbn. apply String.eqb_refl.
    + reflexivity.
Qed.

(** The lookup by external key returns a row of the table that carries the
    key, and finds none only when no row carries it. *)
Lemma select_by_external_key_spec key c :
  match select_by_external_key key c with
  | Some existing => In existing (rows c) /\ fu_external_key existing = Some key
  | None => forall r, In r (rows c) -> fu_external_key r <> Some key
  end.
Proof.
  unfold select_by_external_key.
  destruct (List.find _ (rows c)) as [existing |] eqn:Hfind.
  - apply find_some in Hfind as [Hin Hkey]. split; [exact Hin |].
    destruct (fu_external_key existing) as [k |]; [| discriminate].
    cbn in Hkey. apply String.eqb_eq in Hkey. now subst.
  - intros r Hin Hkey. apply (find_none _ _ Hfind) in Hin.
    rewrite Hkey in Hin. cbn in Hin. now rewrite String.eqb_refl in Hin.
Qed.

(** C7. [create_fine_unit] computes the external key
    [{model}:{lemma}:def_] followed by the first 8 hex characters of
    [md5(definition)]. If some row of the catalog carries this key, it
    inserts nothing and returns the id of a row of the catalog that carries
    the key; if no row carries it, it appends one row, with the next id,
    status [pending] and this key, and returns the new row's id. A second
    invocation with the same lemma and definition under the same model
    (whatever its other arguments) returns the same [fine_id] and leaves
    the catalog as the first one left it. *)
Theorem C7_create_fine_unit_idempotent
    (gemini_model lemma definition : string)
    (utcnow1 kind1 pos1 lang1 utcnow2 kind2 pos2 lang2 : string)
    (video_uid1 video_uid2 : option string) (c : catalog) :
  let key := key_of gemini_model lemma definition in
  let first := create gemini_model utcnow1 lemma kind1 pos1 definition lang1 video_uid1 c in
  let second :=
    create gemini_model utcnow2 lemma kind2 pos2 definition lang2 video_uid2 (snd first) in
  key = gemini_model +:+ ":" +:+ lemma +:+ ":def_"
        +:+ String.substring 0 8 (md5_hexdigest definition)
  /\ ((exists r, In r (rows c) /\ fu_external_key r = Some key) ->
      snd first = c /\
      exists existing res,
        In existing (rows c) /\ fu_external_key existing = Some key /\
        fst first = Some res /\ cr_fine_id res = fu_id existing /\
        cr_status res = fu_status existing)
  /\ ((forall r, In r (rows c) -> fu_external_key r <> Some key) ->
      exists res row,
        fst first = Some res /\ cr_fine_id res = fu_id row /\
        rows (snd first) = rows c ++ [row] /\
        fu_id row = next_id c /\
        fu_status row = "pending" /\ fu_external_key row = Some key /\
        fu_label row = lemma /\ fu_def row = definition)
  /\ (exists r1 r2,
        fst first = Some r1 /\ fst second = Some r2 /\
        cr_fine_id r1 = cr_fine_id r2 /\ snd second = snd first).
Proof.
  cbv zeta. split; [reflexivity |]. split; [| split].
  - intros (r & Hin & Hkey).
    pose proof (select_by_external_key_spec (key_of gemini_model lemma definition) c)
      as Hsel.
    unfold create_fine_unit.
    destruct (select_by_external_key (key_of gemini_model lemma definition) c)
      as [existing |].
    + destruct Hsel as [Hin' Hkey']. cbn. split; [reflexivity |].
      eexists existing, _. repeat split; assumption.
    + destruct (Hsel r Hin Hkey).
  - intros Hnone.
    pose proof (select_by_external_key_spec (key_of gemini_model lemma definition) c)
      as Hsel.
    unfold create_fine_unit, insert_fine_unit.
    destruct (select_by_external_key (key_of gemini_model lemma definition) c)
      as [existing |].
    + destruct Hsel as [Hin Hkey]. destruct (Hnone existing Hin Hkey).
    + cbn. eexists _, _. repeat split; reflexivity.
  - destruct (create_then_select gemini_model utcnow1 lemma kind1 pos1 definition lang1
                                 video_uid1 c) as (r1 & row & Hfirst & Hsel & Hid).
    rewrite Hfirst. cbn [fst snd].
    set (c1 := snd (create gemini_model utcnow1 lemma kind1 pos1 definition lang1
                           video_uid1 c)) in *.
    exists r1. unfold create_fine_unit at 1 2. rewrite Hsel. cbn.
    eexists. repeat split. exact Hid.
Qed.

End CreateFineUnitFacts.

(** Two creations of one definition on an empty catalog: the first inserts
    row 1 as [pending], the second returns row 1 and inserts nothing. *)
Example create_twice :
  let c0 := MCPTools.mkCatalog [] 1 in
  let first := MCPTools.create_fine_unit Examples.constant_digest "gemini-2.0"
                 "2025-01-10T15:30:45" "give up" "phrase_sense" "N/A"
                 "stop trying" "en" (Some "6f8a") c0 in
  let second := MCPTools.create_fine_unit Examples.constant_digest "gemini-2.0"
                  "2025-01-11T08:00:00" "give up" "phrase_sense" "N/A"
                  "stop trying" "en" None (snd first) in
  MCPTools.cr_fine_id <$> fst first = Some 1 /\
  MCPTools.cr_fine_id <$> fst second = Some 1 /\
  MCPTools.cr_note <$> fst second = Some "Already exists in database" /\
  MCPTools.fu_external_key <$> MCPTools.rows (snd first)
    = [Some "gemini-2.0:give up:def_9e107d9d"] /\
  snd second = snd first.
Proof. repeat split. Qed.

(** ** Catalog tool: queries *)

Section QueryFacts.

Import MCPTools.

Variable LOWER : string -> string.

Abbreviation query := (query_fine_units LOWER).
Abbreviation sel := (selects LOWER).

#[local] Instance id_le_total : Total id_le.
Proof. intros a b. unfold id_le. lia. Qed.

Lemma Sorted_take {A : Type} (R : relation A) (l : list A) (n : nat) :
  Sorted R l -> Sorted R (take n l).
Proof.
  intros Hs. revert n. induction Hs as [| x l Hs IH Hhd]; intros [| n]; cbn; try constructor.
  - apply IH.
  - destruct Hhd; destruct n; cbn; constructor; assumption.
Qed.

Lemma word_selection lemma pos lang (all_rows : list fine_unit) :
  match pos with
  | Some p =>
      if negb (String.eqb p "")
      then List.filter (fun r => word_where LOWER lemma lang r
                                 && sql_eq (fu_pos r) (pos_to_db p)) all_rows
      else List.filter (word_where LOWER lemma lang) all_rows
  | None => List.filter (word_where LOWER lemma lang) all_rows
  end = List.filter (sel lemma "word_sense" pos lang) all_rows.
Proof.
  assert (Hw : forall r b,
             word_where LOWER lemma lang r && b =
             String.eqb (fu_kind r) "word_sense" && true
             && String.eqb (LOWER (fu_label r)) (LOWER lemma)
             && String.eqb (fu_lang r) lang
             && String.eqb (fu_status r) "active" && b).
  { intros r b. unfold word_where. now rewrite andb_true_r. }
  destruct pos as [p |]; [destruct (String.eqb p "") eqn:Ep |]; cbn [negb];
    apply List.filter_ext; intros r; unfold selects; cbn [String.eqb Ascii.eqb Bool.eqb orb];
    rewrite ?Ep, <- Hw; [now rewrite andb_true_r | reflexivity | now rewrite andb_true_r].
Qed.

Lemma phrase_selection lemma pos lang (all_rows : list fine_unit) :
  List.filter (phrase_where LOWER lemma lang) all_rows
  = List.filter (sel lemma "phrase_sense" pos lang) all_rows.
Proof.
  apply List.filter_ext. intros r. unfold selects, phrase_where.
  cbn [String.eqb Ascii.eqb Bool.eqb orb]. now rewrite !andb_true_r.
Qed.

Lemma other_kind_selects_nothing lemma kind pos lang r :
  String.eqb kind "word_sense" = false ->
  String.eqb kind "phrase_sense" = false ->
  sel lemma kind pos lang r = false.
Proof.
  intros Hw Hp. unfold selects. rewrite Hw, Hp. cbn.
  now rewrite andb_false_r.
Qed.

(** C8, as amended. A query returns candidates built from catalog rows
    it selects: rows of the queried kind ([word_sense] or [phrase_sense];
    any other kind selects nothing) whose label equals the lemma
    case-insensitively, whose language matches and whose status is
    [active]; for [word_sense], when a non-empty part of speech is
    supplied, the row's [pos] must equal the storage code it maps to (for
    [phrase_sense] the part of speech is not looked at). Every candidate
    comes from a selected row; when at most 50 rows are selected all of them
    are returned; a [word_sense] query returns at most 50 candidates, in the
    order of the ids. When the database raises, the list is empty. *)
Theorem C8_query_fine_units (lemma kind : string) (pos : option string)
    (lang : string) (table : option (list fine_unit)) :
  let result := query lemma kind pos lang table in
  qr_found result = negb (Nat.eqb (length (qr_candidates result)) 0) /\
  match table with
  | None => qr_candidates result = []
  | Some all_rows =>
      exists returned : list fine_unit,
        qr_candidates result =
          map (if String.eqb kind "word_sense" then word_candidate else phrase_candidate)
              returned /\
        (forall r, r ∈ returned -> r ∈ all_rows /\ sel lemma kind pos lang r = true) /\
        ((length (List.filter (sel lemma kind pos lang) all_rows) <= 50)%nat ->
         forall r, r ∈ all_rows -> sel lemma kind pos lang r = true -> r ∈ returned) /\
        (kind = "word_sense" ->
         (length returned <= 50)%nat /\ Sorted id_le returned)
  end.
Proof.
  cbv zeta. split.
  { unfold query_fine_units. cbn [qr_found qr_candidates].
    destruct (length _); reflexivity. }
  destruct table as [all_rows |].
  2: { unfold query_fine_units, _query_word_senses, _query_phrase_senses.
       cbn. now destruct (String.eqb kind "word_sense"), (String.eqb kind "phrase_sense"). }
  unfold query_fine_units. cbn [qr_candidates].
  destruct (String.eqb kind "word_sense") eqn:Ew.
  - apply String.eqb_eq in Ew. subst kind.
    unfold _query_word_senses. rewrite word_selection.
    set (matching := List.filter (sel lemma "word_sense" pos lang) all_rows).
    exists (take 50 (merge_sort id_le matching)).
    split; [reflexivity |]. split; [| split].
    + intros r Hr. apply subseteq_take in Hr.
      rewrite merge_sort_Permutation in Hr.
      apply list_elem_of_In, List.filter_In in Hr as [Hin Hsel].
      split; [now apply list_elem_of_In | exact Hsel].
    + intros Hfew r Hin Hsel.
      rewrite take_ge.
      * rewrite merge_sort_Permutation.
        apply list_elem_of_In, List.filter_In.
        split; [now apply list_elem_of_In | exact Hsel].
      * now rewrite merge_sort_Permutation.
    + intros _. split.
      * rewrite length_take. apply Nat.le_min_l.
      * apply Sorted_take, Sorted_merge_sort, _.
  - destruct (String.eqb kind "phrase_sense") eqn:Ep.
    + apply String.eqb_eq in Ep. subst kind.
      unfold _query_phrase_senses. rewrite (phrase_selection lemma pos lang).
      eexists. split; [reflexivity |]. split; [| split].
      * intros r Hr. apply list_elem_of_In, List.filter_In in Hr as [Hin Hsel].
        split; [now apply list_elem_of_In | exact Hsel].
      * intros _ r Hin Hsel. apply list_elem_of_In, List.filter_In.
        split; [now apply list_elem_of_In | exact Hsel].
      * discriminate.
    + exists []. split; [reflexivity |]. split; [| split].
      * intros r Hr. inversion Hr.
      * intros _ r _ Hsel.
        rewrite (other_kind_selects_nothing lemma kind pos lang r Ew Ep) in Hsel.
        discriminate.
      * intros ->. discriminate.
Qed.

End QueryFacts.

(** With 51 qualifying rows a [word_sense] query returns the 50 of lowest
    id, a [phrase_sense] query, which has no LIMIT, all 51. *)
Example queries_on_51_rows :
  length (MCPTools.qr_candidates
            (MCPTools.query_fine_units (fun s => s) "run" "word_sense" (Some "v") "en"
               (Some (Examples.senses "word_sense" "run" (Some "v") 51)))) = 50%nat /\
  length (MCPTools.qr_candidates
            (MCPTools.query_fine_units (fun s => s) "give up" "phrase_sense" None "en"
               (Some (Examples.senses "phrase_sense" "give up" None 51)))) = 51%nat.
Proof. split; vm_compute; reflexivity. Qed.

(** C8 as stated fails: a [phrase_sense] query that supplies the part of
    speech [v] returns the phrase row although its [pos] is NULL, not the
    code of [v]. *)
Lemma C8_counterexample :
  let result :=
    MCPTools.query_fine_units (fun s => s) "give up" "phrase_sense" (Some "v") "en"
                              (Some [Examples.give_up_row]) in
  MCPTools.qr_candidates result = [MCPTools.phrase_candidate Examples.give_up_row] /\
  ~ specified_match (fun s => s) "give up" "phrase_sense" (Some "v") "en"
      Examples.give_up_row.
Proof.
  cbv zeta. split; [reflexivity |].
  intros (_ & _ & _ & _ & Hpos). destruct (Hpos "v" eq_refl) as [H _].
  discriminate H.
Qed.

(** ** Workflow: the idempotency check *)

Section IdempotencyFacts.

Import Persistence Workflow.

(** C1, as amended. For an ingress event keyed by (object_key, etag):
    a row with status [done] stops the processing with "already
    completed"; a row with status [processing] started less than 3600 s ago
    stops it with "already processing"; a row with status [processing]
    started 3600 s ago or earlier is reset to [queued] with [retry_count]
    incremented, and processing proceeds; any other existing row ([error],
    [queued], or [processing] without a start time) is left as it is, no row
    is inserted, and processing proceeds with the existing job; when there
    is no row, a row with status [processing] and [started_at = now] is
    inserted under the key, no other job row changes, and processing
    proceeds. *)
Theorem C1_check_idempotency (raw_bucket : string) (now : Z)
    (message : PubSubMessage) (db : database) :
  let key := (object_name message, etag message) in
  let out := _check_idempotency raw_bucket now message db in
  match ingest_jobs db !! key with
  | Some row =>
      (j_status row = "done" -> out = (db, inl "Task already completed")) /\
      (j_status row = "processing" ->
       forall started_at, j_started_at row = Some started_at ->
         (now - started_at < PROCESSING_TIMEOUT_SECONDS * 1000000 ->
          out = (db, inl "Task already processing")) /\
         (PROCESSING_TIMEOUT_SECONDS * 1000000 <= now - started_at ->
          (exists job, snd out = inr job) /\
          ingest_jobs (fst out) =
            <[key := mkJobRow (j_video_uid row) (j_video_id row) "queued" None
                              (j_finished_at row) (j_retry_count row + 1) (j_err row)]>
              (ingest_jobs db) /\
          videos (fst out) = videos db)) /\
      (j_status row <> "done" ->
       j_status row <> "processing" \/ j_started_at row = None ->
       fst out = db /\
       snd out = inr (mkIngestJob (object_name message) (etag message) (j_video_uid row)
                                  (j_video_id row) (j_status row) (j_retry_count row)))
  | None =>
      exists job,
        snd out = inr job /\ job_status job = "processing" /\
        ingest_jobs (fst out) !! key =
          Some (mkJobRow (video_uid message) (job_video_id job) "processing" (Some now)
                         None 0 None) /\
        (forall k, k <> key -> ingest_jobs (fst out) !! k = ingest_jobs db !! k)
  end.
Proof.
  cbv zeta. unfold _check_idempotency.
  destruct (ingest_jobs db !! (object_name message, etag message)) as [row |] eqn:Hrow.
  - destruct (String.eqb_spec (j_status row) "done") as [Hdone | Hdone].
    + split; [reflexivity |]. split.
      * intros Hp. rewrite Hdone in Hp. discriminate.
      * intros H. contradiction.
    + split; [intros H; contradiction |].
      destruct (String.eqb_spec (j_status row) "processing") as [Hproc | Hproc].
      * split.
        -- intros _ started_at Hst. rewrite Hst. unfold within_timeout.
           destruct (Z.ltb_spec (now - started_at)
                                (PROCESSING_TIMEOUT_SECONDS * 1000000)) as [Hlt | Hge].
           ++ split; [reflexivity | intros H; lia].
           ++ split; [intros H; lia |]. intros _. cbn. eauto.
        -- intros _ [H | Hnone]; [contradiction |]. rewrite Hnone. split; reflexivity.
      * split; [intros H; contradiction |]. intros _ _. split; reflexivity.
  - destruct (_get_or_create_video raw_bucket now (video_uid message)
                                   (object_name message) db) as [db1 video_id] eqn:Hv.
    assert (Hjobs : ingest_jobs db1 = ingest_jobs db).
    { unfold _get_or_create_video in Hv.
      destruct (List.find _ (videos db)); injection Hv as <- _; reflexivity. }
    eexists. split; [reflexivity |]. split; [reflexivity |]. cbn. split.
    + apply lookup_insert_eq.
    + intros k Hk. rewrite lookup_insert_ne by congruence. now rewrite Hjobs.
Qed.

End IdempotencyFacts.

(** The first delivery of an event inserts the job row as [processing],
    started now, for the video it finds under the uid. *)
Example first_delivery_inserts_processing_row :
  let db := Workflow.mkDatabase ∅ [Examples.video0] 8 in
  let out := Workflow._check_idempotency "raw" 5000 Examples.event0 db in
  snd out = inr (Workflow.mkIngestJob "uploads/6f8a/v.mp4" "abc" "6f8a" 7 "processing" 0) /\
  Workflow.ingest_jobs (fst out) !! ("uploads/6f8a/v.mp4", "abc")
    = Some (Workflow.mkJobRow "6f8a" 7 "processing" (Some 5000) None 0 None) /\
  Workflow.videos (fst out) = [Examples.video0].
Proof.
  cbv zeta. unfold Workflow._check_idempotency, Examples.event0.
  cbn [Workflow.ingest_jobs Workflow.object_name Workflow.etag].
  rewrite lookup_empty. cbn. rewrite lookup_insert_eq. repeat split.
Qed.

(** C1 as stated fails: a delivery that finds the job row in status
    [error] proceeds, but no row with status [processing] and
    [started_at = now] is inserted: the row stays as it was. *)
Lemma C1_counterexample :
  let db := Examples.db_with (Examples.job_in_status "error" (Some 100)) in
  let out := Workflow._check_idempotency "raw" 5000 Examples.event0 db in
  (exists job, snd out = inr job) /\
  Workflow.ingest_jobs (fst out) !! ("uploads/6f8a/v.mp4", "abc")
    = Some (Examples.job_in_status "error" (Some 100)) /\
  ~ (exists row,
        Workflow.ingest_jobs (fst out) !! ("uploads/6f8a/v.mp4", "abc") = Some row /\
        Workflow.j_status row = "processing" /\ Workflow.j_started_at row = Some 5000).
Proof.
  cbv zeta.
  assert (Hout : Workflow._check_idempotency "raw" 5000 Examples.event0
                   (Examples.db_with (Examples.job_in_status "error" (Some 100)))
                 = (Examples.db_with (Examples.job_in_status "error" (Some 100)),
                    inr (Workflow.mkIngestJob "uploads/6f8a/v.mp4" "abc" "6f8a" 7
                                              "error" 0))).
  { unfold Workflow._check_idempotency, Examples.db_with, Examples.event0.
    cbn [Workflow.ingest_jobs Workflow.object_name Workflow.etag].
    rewrite lookup_singleton_eq. reflexivity. }
  rewrite Hout. cbn [fst snd Examples.db_with Workflow.ingest_jobs].
  rewrite lookup_singleton_eq.
  split; [eauto |]. split; [reflexivity |].
  intros (row & Hrow & Hst & _). injection Hrow as <-. discriminate Hst.
Qed.

(** ** Workflow: the failure handler *)

Section FailureFacts.

Import Persistence Workflow.



End FailureFacts.


(** A second delivery while the first run is still within the timeout
    raises the typed [IdempotencyError]; the handler then marks the running
    job [error]. *)
Example duplicate_delivery_marks_running_job :
  let db := Examples.db_with (Examples.job_in_status "processing" (Some 0)) in
  let out := Workflow.process_message "raw" 10000000 10000001 (fun _ d => (d, None))
                                      Examples.event0 db in
  snd (fst out) =
    Some (Workflow.RaisedWorkflowError
            (Workflow.IdempotencyError "Task already processing")) /\
  Workflow.ingest_jobs (fst (fst out)) !! ("uploads/6f8a/v.mp4", "abc")
    = Some (Workflow.mkJobRow "6f8a" 7 "error" (Some 0) (Some 10000001) 0
                              (Some "Task already processing")).
Proof.
  cbv zeta. unfold Workflow.process_message, Workflow._check_idempotency,
    Examples.db_with, Examples.event0.
  cbn [Workflow.ingest_jobs Workflow.object_name Workflow.etag].
  rewrite lookup_singleton_eq.
  cbn. change (Workflow.within_timeout 10000000 0) with true. cbn.
  rewrite map_fmap_singleton, lookup_singleton_eq.
  repeat split.
Qed.

(** * Further properties of the code *)

(** ** Persistence: accounting of the occurrence loop *)

Section OccurrenceAccounting.

Import Persistence Observations.

Variable conn : Type.
Variable execute : conn -> occurrence_insert -> conn * exec_outcome.
Variable upsert_segment : conn -> Z -> segment -> conn * option Z.

Abbreviation pass1 := (loop_pass conn execute).
Abbreviation loop_from := (insert_loop conn execute).

Lemma inserted_rows_app tr1 tr2 :
  inserted_rows (tr1 ++ tr2) = (inserted_rows tr1 + inserted_rows tr2)%nat.
Proof. unfold inserted_rows. now rewrite List.filter_app, length_app. Qed.

Lemma conflicts_app tr1 tr2 :
  conflicts (tr1 ++ tr2) = (conflicts tr1 + conflicts tr2)%nat.
Proof. unfold conflicts. now rewrite List.filter_app, length_app. Qed.

(** One pass that does not raise accounts for its annotation exactly once:
    as inserted, as skipped, or as a conflict. *)
Lemma loop_pass_accounting segment_ids method ontology_ver idx ann c t c' t' tr log :
  pass1 segment_ids method ontology_ver idx ann c t = (c', inl t', tr, log) ->
  inserted t' = (inserted t + inserted_rows tr)%nat /\
  (inserted_rows tr + (skipped t' - skipped t) + conflicts tr = 1)%nat /\
  (skipped t <= skipped t')%nat /\
  (length tr <= 1)%nat.
Proof.
  unfold loop_pass.
  destruct (prepare segment_ids ann method ontology_ver) as [| stmt | msg].
  - intros H. injection H as <- <- <- <-. cbn. lia.
  - destruct (execute c stmt) as [c1 o].
    destruct o as [tag | e | msg | msg].
    + intros H. injection H as <- <- <- <-.
      unfold inserted_rows, conflicts. cbn.
      destruct (is_substring "INSERT 0 1" tag); cbn; lia.
    + destruct (pg_foreign_key_violation e).
      * intros H. injection H as <- <- <- <-. cbn. lia.
      * destruct (is_this_detail _ idx); [discriminate |].
        intros H. injection H as <- <- <- <-. cbn. lia.
    + destruct (_ || _).
      * intros H. injection H as <- <- <- <-. cbn. lia.
      * destruct (same_error_text _ msg); [discriminate |].
        intros H. injection H as <- <- <- <-. cbn. lia.
    + intros H. injection H as <- <- <- <-. cbn. lia.
  - intros H. injection H as <- <- <- <-. cbn. lia.
Qed.

Lemma insert_loop_accounting segment_ids method ontology_ver annotations :
  forall idx c t c' ins sk tr log,
    loop_from segment_ids method ontology_ver idx annotations c t
    = (c', Returned ins sk, tr, log) ->
    ins = (inserted t + inserted_rows tr)%nat /\
    (inserted_rows tr + (sk - skipped t) + conflicts tr = length annotations)%nat /\
    (skipped t <= sk)%nat /\
    (length tr <= length annotations)%nat.
Proof.
  induction annotations as [| ann rest IH]; intros idx c t c' ins sk tr log.
  - cbn. intros H. injection H as <- <- <- <- <-. cbn. lia.
  - cbn [insert_loop].
    destruct (pass1 segment_ids method ontology_ver idx ann c t)
      as [[[c1 r] tr1] log1] eqn:Epass.
    destruct r as [t1 | o]; [| discriminate].
    destruct (loop_from segment_ids method ontology_ver (S idx) rest c1 t1)
      as [[[c2 r2] tr2] log2] eqn:Erest.
    intros H. injection H as <- -> <- <-.
    apply loop_pass_accounting in Epass as (Hi1 & Hone & Hs1 & Hl1).
    apply IH in Erest as (Hi2 & Hsum & Hs2 & Hl2).
    rewrite inserted_rows_app, conflicts_app, length_app. cbn [length].
    lia.
Qed.

(** X1. When [_insert_occurrences] returns, its first count is the number
    of INSERTs the database reported as inserting a row, and every
    annotation is accounted for exactly once: inserted, skipped, or dropped
    by ON CONFLICT DO NOTHING. At most one statement is issued per
    annotation. *)
Theorem X1_occurrence_accounting (c : conn) (segment_ids : list Z)
    (annotations : list pyval) (method ontology_ver : string)
    (c' : conn) (ins sk : nat) tr log :
  _insert_occurrences conn execute c segment_ids annotations method ontology_ver
  = (c', Returned ins sk, tr, log) ->
  ins = inserted_rows tr /\
  (ins + sk + conflicts tr = length annotations)%nat /\
  (length tr <= length annotations)%nat.
Proof.
  unfold _insert_occurrences. intros H.
  apply insert_loop_accounting in H as (Hi & Hsum & _ & Hlen).
  cbn in Hi, Hsum. subst ins. rewrite Nat.sub_0_r in Hsum. auto.
Qed.

Lemma insert_segments_length (c : conn) (video_id : Z) (segments : list segment) :
  forall c' ids,
    _insert_segments conn upsert_segment c video_id segments = (c', Some ids) ->
    length ids = length segments.
Proof.
  revert c. induction segments as [| seg rest IH]; intros c c' ids; cbn.
  - intros H. now injection H as <- <-.
  - destruct (upsert_segment c video_id seg) as [c1 [id |]]; [| discriminate].
    destruct (_insert_segments conn upsert_segment c1 video_id rest)
      as [c2 [ids' |]] eqn:Erest; [| discriminate].
    intros H. injection H as <- <-. cbn. f_equal. eapply IH, Erest.
Qed.

(** X2. When [save_video_analysis] commits, [segments_inserted] is the
    number of segments it was given (rows that already existed are counted
    too), and [occurrences_inserted + occurrences_skipped] never exceeds the
    number of annotations. *)
Theorem X2_save_statistics (c : conn) (video_id : Z) (segments : list segment)
    (annotations : list pyval) (method ontology_ver : string)
    (c' : conn) (s : stats) tr log :
  save_video_analysis conn execute upsert_segment c video_id segments annotations
                      method ontology_ver
  = (c', Committed s, tr, log) ->
  segments_inserted s = length segments /\
  occurrences_inserted s = inserted_rows tr /\
  (occurrences_inserted s + occurrences_skipped s <= length annotations)%nat.
Proof.
  unfold save_video_analysis, _insert_occurrences.
  destruct (_insert_segments conn upsert_segment c video_id segments)
    as [c1 [ids |]] eqn:Eseg; [| discriminate].
  destruct (loop_from ids method ontology_ver 0 annotations c1 (mkTotals 0 0 None))
    as [[[c2 r] tr2] log2] eqn:Eloop.
  destruct r as [ins sk | i o]; [| discriminate].
  intros H. injection H as <- <- <- <-. cbn.
  apply insert_segments_length in Eseg.
  apply insert_loop_accounting in Eloop as (Hi & Hsum & _ & _).
  cbn in Hi, Hsum. rewrite Nat.sub_0_r in Hsum. repeat split; auto. lia.
Qed.

End OccurrenceAccounting.

(** X1 on a run of two annotations, one inserted and one pointing beyond
    the segments. *)
Lemma X1_witness :
  let run :=
    Persistence._insert_occurrences unit Examples.always_inserts tt [101; 102]
      [PDict Examples.ann_give_up; PDict (Examples.annotation 5 777 0 4)]
      "gemini_video" "gemini-2.0" in
  1%nat = Observations.inserted_rows (snd (fst run)) /\
  (1 + 1 + Observations.conflicts (snd (fst run)) = 2)%nat /\
  (length (snd (fst run)) <= 2)%nat.
Proof.
  cbv zeta.
  eapply (X1_occurrence_accounting unit Examples.always_inserts tt [101; 102]
           [PDict Examples.ann_give_up; PDict (Examples.annotation 5 777 0 4)]
           "gemini_video" "gemini-2.0" tt 1 1).
  reflexivity.
Defined.

(** X2 on a save of two segments and the same two annotations. *)
Lemma X2_witness :
  let run :=
    Persistence.save_video_analysis unit Examples.always_inserts
      (fun c _ seg => (c, Some (Z.of_nat (String.length (seg_text seg))))) tt 7
      [Examples.seg0; Examples.seg1]
      [PDict Examples.ann_give_up; PDict (Examples.annotation 5 777 0 4)]
      "gemini_video" "gemini-2.0" in
  Persistence.segments_inserted (Persistence.mkStats 2 1 1) = 2%nat /\
  Persistence.occurrences_inserted (Persistence.mkStats 2 1 1)
    = Observations.inserted_rows (snd (fst run)) /\
  (1 + 1 <= 2)%nat.
Proof.
  cbv zeta.
  eapply (X2_save_statistics unit Examples.always_inserts
           (fun c _ seg => (c, Some (Z.of_nat (String.length (seg_text seg))))) tt 7
           [Examples.seg0; Examples.seg1]
           [PDict Examples.ann_give_up; PDict (Examples.annotation 5 777 0 4)]
           "gemini_video" "gemini-2.0" tt (Persistence.mkStats 2 1 1)).
  reflexivity.
Defined.

(** ** Persistence: which error leaves the occurrence loop *)

Section OccurrenceErrors.

Import Persistence Observations.

Variable conn : Type.
Variable execute : conn -> occurrence_insert -> conn * exec_outcome.

(** The connection is the driver's own: it raises the driver's exceptions,
    never the [DatabaseError] of the pool wrapper. *)
Hypothesis raw_connection :
  forall c stmt msg, snd (execute c stmt) <> RaisedDatabaseError msg.

Abbreviation pass2 := (loop_pass conn execute).
Abbreviation loop2 := (insert_loop conn execute).

(** Once an error is on record, no later pass raises. *)
Lemma loop_pass_after_error segment_ids method ontology_ver idx ann c t fe :
  first_error t = Some fe -> (error_index fe < idx)%nat ->
  exists t',
    snd (fst (fst (pass2 segment_ids method ontology_ver idx ann c t))) = inl t' /\
    first_error t' = Some fe.
Proof.
  intros Hfe Hidx. unfold loop_pass. rewrite Hfe.
  destruct (prepare segment_ids ann method ontology_ver) as [| stmt | msg];
    cbn; eauto.
  pose proof (raw_connection c stmt) as Hraw.
  destruct (execute c stmt) as [c1 o]. cbn in Hraw.
  destruct o as [tag | e | msg | msg]; cbn; eauto.
  - destruct (pg_foreign_key_violation e); cbn; eauto.
    destruct fe as [i0 e0 | i0 m0]; cbn in *; eauto.
    destruct (Nat.eqb_spec i0 idx) as [-> | _]; [lia |]. cbn. eauto.
  - exfalso. now apply (Hraw msg).
Qed.

Lemma insert_loop_after_error segment_ids method ontology_ver annotations :
  forall idx c t fe,
    first_error t = Some fe -> (error_index fe < idx)%nat ->
    exists ins sk,
      snd (fst (fst (loop2 segment_ids method ontology_ver idx annotations c t)))
      = Returned ins sk.
Proof.
  induction annotations as [| ann rest IH]; intros idx c t fe Hfe Hidx; cbn; eauto.
  destruct (loop_pass_after_error segment_ids method ontology_ver idx ann c t fe Hfe Hidx)
    as (t' & Hpass & Hfe').
  destruct (pass2 segment_ids method ontology_ver idx ann c t) as [[[c1 r] tr1] log1].
  cbn in Hpass. subst r.
  destruct (IH (S idx) c1 t' fe Hfe' (Nat.lt_lt_succ_r _ _ Hidx)) as (ins & sk & Hrest).
  destruct (loop2 segment_ids method ontology_ver (S idx) rest c1 t')
    as [[[c2 r2] tr2] log2].
  cbn in *. eauto.
Qed.

(** A pass that starts with no error on record either keeps it so and
    issues only completed statements, or records an error of its own index,
    or raises a PostgresError that is not a foreign-key violation. *)
Lemma loop_pass_without_error segment_ids method ontology_ver idx ann c t :
  first_error t = None ->
  let out := pass2 segment_ids method ontology_ver idx ann c t in
  (exists t', snd (fst (fst out)) = inl t' /\ first_error t' = None /\
              Forall (fun p => completed (snd p)) (snd (fst out))) \/
  (exists t' fe, snd (fst (fst out)) = inl t' /\ first_error t' = Some fe /\
                 error_index fe = idx) \/
  (exists stmt e, snd (fst (fst out)) = inr (RaisedPostgresError e) /\
                  pg_foreign_key_violation e = false /\
                  snd (fst out) = [(stmt, RaisedPostgresError e)]).
Proof.
  intros Hfe. cbv zeta. unfold loop_pass. rewrite Hfe.
  destruct (prepare segment_ids ann method ontology_ver) as [| stmt | msg]; cbn.
  - left. eexists. repeat split. constructor.
  - pose proof (raw_connection c stmt) as Hraw.
    destruct (execute c stmt) as [c1 o]. cbn in Hraw.
    destruct o as [tag | e | msg | msg]; cbn.
    + left. eexists. repeat split. repeat constructor. now exists tag.
    + destruct (pg_foreign_key_violation e) eqn:Efk; cbn.
      * right; left. eexists _, _. repeat split.
      * rewrite Nat.eqb_refl. cbn. right; right. eauto.
    + exfalso. now apply (Hraw msg).
    + right; left. eexists _, _. repeat split.
  - right; left. eexists _, _. repeat split.
Qed.

Lemma insert_loop_raises segment_ids method ontology_ver annotations :
  forall idx c t c' i o tr log,
    first_error t = None ->
    loop2 segment_ids method ontology_ver idx annotations c t = (c', Raised i o, tr, log) ->
    exists e stmt before,
      o = RaisedPostgresError e /\ pg_foreign_key_violation e = false /\
      tr = before ++ [(stmt, o)] /\
      Forall (fun p => completed (snd p)) before.
Proof.
  induction annotations as [| ann rest IH]; intros idx c t c' i o tr log Hfe; cbn.
  - discriminate.
  - pose proof (loop_pass_without_error segment_ids method ontology_ver idx ann c t Hfe)
      as Hpass.
    cbv zeta in Hpass.
    destruct (pass2 segment_ids method ontology_ver idx ann c t) as [[[c1 r] tr1] log1].
    cbn in Hpass.
    destruct Hpass as [(t' & -> & Hfe' & Hdone)
                      | [(t' & fe & -> & Hfe' & Hidx) | (stmt & e & -> & Hfk & ->)]].
    + destruct (loop2 segment_ids method ontology_ver (S idx) rest c1 t')
        as [[[c2 r2] tr2] log2] eqn:Erest.
      intros H. injection H as <- -> <- <-.
      destruct (IH _ _ _ _ _ _ _ _ Hfe' Erest) as (e & stmt & before & Ho & Hfk & -> & Hb).
      exists e, stmt, (tr1 ++ before). rewrite <- app_assoc.
      repeat split; auto. apply Forall_app; auto.
    + assert (Hlt : (error_index fe < S idx)%nat) by lia.
      destruct (insert_loop_after_error segment_ids method ontology_ver rest (S idx) c1 t'
                                        fe Hfe' Hlt) as (ins & sk & Hret).
      destruct (loop2 segment_ids method ontology_ver (S idx) rest c1 t')
        as [[[c2 r2] tr2] log2].
      cbn in Hret. subst r2. discriminate.
    + intros H. injection H as <- <- <- <- <-.
      exists e, stmt, []. repeat split; auto.
Qed.

(** X3. On the driver's connection, [_insert_occurrences] raises only a
    PostgresError that is not a foreign-key violation, and only when it is
    the first failure of the run: every statement issued before the failing
    one completed. In particular, once a foreign-key violation has been
    skipped the loop runs to its end whatever the database answers. *)
Theorem X3_only_the_first_error_is_raised (c : conn) (segment_ids : list Z)
    (annotations : list pyval) (method ontology_ver : string)
    (c' : conn) (i : nat) (o : exec_outcome) tr log :
  _insert_occurrences conn execute c segment_ids annotations method ontology_ver
  = (c', Raised i o, tr, log) ->
  exists e stmt before,
    o = RaisedPostgresError e /\ pg_foreign_key_violation e = false /\
    tr = before ++ [(stmt, o)] /\
    Forall (fun p => completed (snd p)) before /\
    (forall s e', In (s, RaisedPostgresError e') tr -> pg_foreign_key_violation e' = false).
Proof.
  unfold _insert_occurrences. intros H.
  apply insert_loop_raises in H as (e & stmt & before & -> & Hfk & -> & Hb);
    [| reflexivity].
  exists e, stmt, before. repeat split; auto.
  intros s e' Hin. apply in_app_or in Hin as [Hin | [Hin | []]].
  - rewrite List.Forall_forall in Hb. destruct (Hb _ Hin) as [tag Htag]. discriminate.
  - now injection Hin as _ <-.
Qed.

End OccurrenceErrors.

(** X3 on a connection that rejects every INSERT: the first annotation's
    error is raised. *)
Lemma X3_witness :
  exists e stmt before,
    Persistence.RaisedPostgresError
      (Persistence.mkPgError false (Some "23514") "violates check constraint" None)
    = Persistence.RaisedPostgresError e /\
    Persistence.pg_foreign_key_violation e = false /\
    snd (fst (Persistence._insert_occurrences unit Examples.always_rejects tt [101; 102]
                [PDict Examples.ann_give_up; PDict Examples.ann_learn]
                "gemini_video" "gemini-2.0"))
    = before ++ [(stmt, Persistence.RaisedPostgresError
                          (Persistence.mkPgError false (Some "23514")
                                                 "violates check constraint" None))] /\
    Forall (fun p => Observations.completed (snd p)) before /\
    (forall s e',
        In (s, Persistence.RaisedPostgresError e')
           (snd (fst (Persistence._insert_occurrences unit Examples.always_rejects tt
                        [101; 102]
                        [PDict Examples.ann_give_up; PDict Examples.ann_learn]
                        "gemini_video" "gemini-2.0"))) ->
        Persistence.pg_foreign_key_violation e' = false).
Proof.
  assert (Hraw : forall (c : unit) stmt msg,
             snd (Examples.always_rejects c stmt) <> Persistence.RaisedDatabaseError msg).
  { intros c stmt msg H. discriminate H. }
  eapply (X3_only_the_first_error_is_raised unit Examples.always_rejects Hraw
            tt [101; 102] [PDict Examples.ann_give_up; PDict Examples.ann_learn]
            "gemini_video" "gemini-2.0" tt 0).
  reflexivity.
Defined.

(** ** Persistence: the statement issued for an annotation *)

Section OccurrenceStatements.

Import Persistence Observations.

Variable conn : Type.
Variable execute : conn -> occurrence_insert -> conn * exec_outcome.

Lemma prepare_in_range segment_ids ann method ontology_ver :
  names_a_segment segment_ids ann ->
  exists stmt,
    prepare segment_ids ann method ontology_ver = Statement stmt /\
    inserts_for segment_ids ann stmt.
Proof.
  intros (d & i & fine_id & -> & Hidx & [Hlo Hhi] & Hfid).
  unfold prepare, get_default. rewrite Hidx, Hfid. cbn [num_value int_value float_le].
  assert (Hcmp : Qle_bool (inject_Z (Z.of_nat (length segment_ids))) (inject_Z i) = false).
  { apply not_true_is_false. intros H. apply Qle_bool_iff in H.
    rewrite <- Zle_Qle in H. lia. }
  rewrite Hcmp. unfold list_index.
  destruct (Z.leb_spec 0 i) as [_ | Hneg]; [| lia].
  destruct (segment_ids !! Z.to_nat i) as [segment_id |] eqn:Elook.
  - eexists. split; [reflexivity |]. exists d, i. cbn. auto.
  - apply lookup_ge_None in Elook. lia.
Qed.

Lemma loop_pass_in_range segment_ids method ontology_ver idx ann c t :
  names_a_segment segment_ids ann ->
  exists stmt o,
    snd (fst (loop_pass conn execute segment_ids method ontology_ver idx ann c t))
    = [(stmt, o)] /\
    inserts_for segment_ids ann stmt.
Proof.
  intros Hann.
  destruct (prepare_in_range segment_ids ann method ontology_ver Hann) as (stmt & Hp & Hfor).
  unfold loop_pass. rewrite Hp.
  destruct (execute c stmt) as [c1 o]. exists stmt, o. split; [| exact Hfor].
  destruct o as [tag | e | msg | msg]; cbn; try reflexivity.
  - destruct (pg_foreign_key_violation e); [reflexivity |].
    now destruct (is_this_detail _ idx).
  - destruct (_ || _); [reflexivity |]. now destruct (same_error_text _ msg).
Qed.

Lemma insert_loop_in_range segment_ids method ontology_ver annotations :
  Forall (names_a_segment segment_ids) annotations ->
  forall idx c t c' ins sk tr log,
    insert_loop conn execute segment_ids method ontology_ver idx annotations c t
    = (c', Returned ins sk, tr, log) ->
    Forall2 (inserts_for segment_ids) annotations (map fst tr).
Proof.
  induction 1 as [| ann rest Hann Hrest IH]; intros idx c t c' ins sk tr log; cbn.
  - intros H. injection H as <- <- <- <- <-. constructor.
  - destruct (loop_pass_in_range segment_ids method ontology_ver idx ann c t Hann)
      as (stmt & o & Htr & Hfor).
    destruct (loop_pass conn execute segment_ids method ontology_ver idx ann c t)
      as [[[c1 r] tr1] log1].
    cbn in Htr. subst tr1.
    destruct r as [t1 | raised]; [| discriminate].
    destruct (insert_loop conn execute segment_ids method ontology_ver (S idx) rest c1 t1)
      as [[[c2 r2] tr2] log2] eqn:Erest.
    intros H. injection H as <- -> <- <-.
    cbn. constructor; [exact Hfor |]. eapply IH, Erest.
Qed.

(** X4. When every annotation names one of the segments by a non-negative
    index and has a [fine_id], and the loop returns, exactly one INSERT was
    issued per annotation, in the order of the annotations, each for the id
    of the segment its index names and for its [fine_id]. *)
Theorem X4_one_insert_per_annotation (c : conn) (segment_ids : list Z)
    (annotations : list pyval) (method ontology_ver : string)
    (c' : conn) (ins sk : nat) tr log :
  Forall (names_a_segment segment_ids) annotations ->
  _insert_occurrences conn execute c segment_ids annotations method ontology_ver
  = (c', Returned ins sk, tr, log) ->
  Forall2 (inserts_for segment_ids) annotations (map fst tr) /\
  length tr = length annotations.
Proof.
  intros Hall Hrun. unfold _insert_occurrences in Hrun.
  pose proof (insert_loop_in_range segment_ids method ontology_ver annotations Hall
                _ _ _ _ _ _ _ _ Hrun) as H.
  split; [exact H |].
  apply Forall2_length in H. now rewrite length_map in H.
Qed.

End OccurrenceStatements.

(** X4 on two annotations of segment 0. *)
Lemma X4_witness :
  Forall2 (Observations.inserts_for [101; 102])
          [PDict Examples.ann_give_up; PDict Examples.ann_learn]
          (map fst (snd (fst (Persistence._insert_occurrences unit Examples.always_inserts
                                tt [101; 102]
                                [PDict Examples.ann_give_up; PDict Examples.ann_learn]
                                "gemini_video" "gemini-2.0")))) /\
  length (snd (fst (Persistence._insert_occurrences unit Examples.always_inserts
                      tt [101; 102]
                      [PDict Examples.ann_give_up; PDict Examples.ann_learn]
                      "gemini_video" "gemini-2.0"))) = 2%nat.
Proof.
  eapply (X4_one_insert_per_annotation unit Examples.always_inserts tt [101; 102]
            [PDict Examples.ann_give_up; PDict Examples.ann_learn]
            "gemini_video" "gemini-2.0" tt 2 0).
  - repeat constructor.
    + exists Examples.ann_give_up, 0, (PInt 23456). cbn. repeat split; lia.
    + exists Examples.ann_learn, 0, (PInt 777). cbn. repeat split; lia.
  - reflexivity.
Defined.

(** ** Orchestrator: failure isolation and validity of the output *)

Section OrchestratorMore.

Import Annotators Orchestrators.

Variable call_with_tools_result : nat -> annotator_kind -> pyval + Vertex.vertex_error.

Abbreviation segment_call := (_process_segment call_with_tools_result).
Abbreviation one := (process_one call_with_tools_result).
Abbreviation all_segments := (_process_segments_concurrent call_with_tools_result).

Lemma process_one_failure_notified idx seg e :
  fst (segment_call seg idx phrase_sense) = inr e \/
  (exists P, fst (segment_call seg idx phrase_sense) = inl P) /\
  fst (segment_call seg idx word_sense) = inr e ->
  In (LarkSegmentFailed idx e) (snd (one idx seg)).
Proof.
  unfold process_one.
  destruct (segment_call seg idx phrase_sense) as [rp lp].
  destruct (segment_call seg idx word_sense) as [rw lw]. cbn.
  intros [-> | [[P ->] ->]]; cbn; rewrite ?in_app_iff; cbn; auto.
Qed.

(** X5. A segment task in which an annotator call lets an exception escape
    contributes no annotation, even if its phrase annotator had returned
    some, and sends one failure notification; the output is what the earlier
    segments gave followed by what the later segments give, as if the
    failed segment were not there. *)
Theorem X5_failed_segment_is_isolated (segments : list segment) (i : nat)
    (seg : segment) (e : pyexn) :
  segments !! i = Some seg ->
  fst (segment_call seg i phrase_sense) = inr e \/
  (exists P, fst (segment_call seg i phrase_sense) = inl P) /\
  fst (segment_call seg i word_sense) = inr e ->
  all_segments segments =
    all_segments (take i segments)
    ++ concat (imap (fun j s => fst (one (S i + j)%nat s)) (drop (S i) segments))
  /\ In (LarkSegmentFailed i e) (snd (one i seg)).
Proof.
  intros Hi Hfail. split.
  - rewrite (output_split call_with_tools_result segments i seg Hi).
    rewrite (process_one_fails call_with_tools_result i seg e); [reflexivity |].
    destruct Hfail as [H | [_ H]]; auto.
  - now apply process_one_failure_notified.
Qed.

Lemma filter_valid_sound k seg idx items :
  forall valid log,
    filter_valid k seg idx items = (inl valid, log) ->
    forall ann, In ann valid ->
                exists d, ann = PDict d /\ validate_annotation k d seg = true.
Proof.
  induction items as [| item rest IH]; intros valid log; cbn.
  - intros H. injection H as <- <-. intros ann [].
  - destruct (validate_item k item seg) as [[|] | e] eqn:Ev; [| | discriminate].
    + destruct (filter_valid k seg idx rest) as [[valid' | e'] log'] eqn:Erest;
        [| discriminate].
      intros H. injection H as <- <-. intros ann [<- | Hin].
      * destruct item as [| b | z | f | s | l | d]; cbn [validate_item] in Ev;
          try discriminate;
          try (destruct (forallb _ required); discriminate).
        injection Ev as Ev. eauto.
      * eapply IH; eauto.
    + destruct (filter_valid k seg idx rest) as [[valid' | e'] log'] eqn:Erest;
        [| discriminate].
      intros H. injection H as <- <-. intros ann Hin. eapply IH; eauto.
Qed.

Lemma process_segment_sound seg idx k valid :
  fst (segment_call seg idx k) = inl valid ->
  forall ann, In ann valid ->
              exists d, ann = PDict d /\ validate_annotation k d seg = true.
Proof.
  unfold _process_segment.
  destruct (call_with_tools_result idx k) as [response | err].
  - destruct response as [| b | z | f | s | l | d]; cbn; try discriminate.
    destruct (iterate _) as [items |]; [| discriminate].
    destruct (filter_valid k seg idx items) as [r log] eqn:Ef. cbn.
    intros ->. eapply filter_valid_sound, Ef.
  - cbn. intros H. injection H as <-. intros ann [].
Qed.

(** X6. Whatever the language model replies, every item of the
    orchestrator's output is a dict that the validator of one of the two
    annotators accepted against one of the video's segments. *)
Theorem X6_output_is_validated (segments : list segment) (ann : pyval) :
  In ann (all_segments segments) ->
  exists i seg k d,
    segments !! i = Some seg /\ ann = PDict d /\
    validate_annotation k d seg = true /\ Statements.accepted d seg.
Proof.
  unfold _process_segments_concurrent. intros Hin.
  apply in_concat in Hin as (batch & Hbatch & Hann).
  apply list_elem_of_In, elem_of_lookup_imap in Hbatch as (i & seg & -> & Hi).
  exists i, seg.
  unfold process_one in Hann.
  destruct (segment_call seg i phrase_sense) as [rp lp] eqn:Ep.
  destruct rp as [P | e]; [| destruct Hann].
  destruct (segment_call seg i word_sense) as [rw lw] eqn:Ew.
  destruct rw as [W | e]; [| destruct Hann].
  cbn in Hann. apply in_app_or in Hann as [Hann | Hann].
  - destruct (process_segment_sound seg i phrase_sense P) with (ann := ann)
      as (d & -> & Hv); [now rewrite Ep | exact Hann |].
    exists phrase_sense, d. split; [exact Hi | split; [reflexivity | split; [exact Hv |]]].
    apply (validate_annotation_spec phrase_sense), Hv.
  - destruct (process_segment_sound seg i word_sense W) with (ann := ann)
      as (d & -> & Hv); [now rewrite Ew | exact Hann |].
    exists word_sense, d. split; [exact Hi | split; [reflexivity | split; [exact Hv |]]].
    apply (validate_annotation_spec word_sense), Hv.
Qed.

End OrchestratorMore.

(** X5 on a run whose second segment gets a reply that is not a JSON
    object. *)
Lemma X5_witness :
  let run idx k :=
    match idx with
    | 1%nat => inl (PList [])
    | _ => Examples.lm_run idx k
    end in
  Orchestrators._process_segments_concurrent run [Examples.seg0; Examples.seg1]
  = Orchestrators._process_segments_concurrent run (take 1 [Examples.seg0; Examples.seg1])
    ++ concat (imap (fun j s => fst (Orchestrators.process_one run (2 + j)%nat s))
                    (drop 2 [Examples.seg0; Examples.seg1]))
  /\ In (Orchestrators.LarkSegmentFailed 1 AttributeError)
        (snd (Orchestrators.process_one run 1 Examples.seg1)).
Proof.
  cbv zeta.
  apply (X5_failed_segment_is_isolated
           (fun idx k => match idx with
                         | 1%nat => inl (PList [])
                         | _ => Examples.lm_run idx k
                         end)
           [Examples.seg0; Examples.seg1] 1 Examples.seg1 AttributeError).
  - reflexivity.
  - left. reflexivity.
Defined.

(** ** Language-model driver: the responses to a reply's function calls *)

Section ToolResponses.

Import Vertex Observations.

Variable world : Type.
Variable tool_handler : string -> dict -> world -> world * (pyval + string).

(** X7. For a reply with function calls the driver builds exactly one
    function response per call, in the order of the calls and under the
    name of each call, and calls the handler once per call; a call whose
    handler raises gets an error response and the remaining calls are still
    executed. *)
Theorem X7_one_response_per_call (function_calls : list function_call) (w : world) :
  let out := execute_function_calls world tool_handler function_calls w in
  map answered_name (snd (fst out)) = map fc_name function_calls /\
  length (snd out) = length function_calls /\
  Forall2 (fun fc ev => exists outcome, ev = ToolCalled fc outcome)
          function_calls (snd out) /\
  Forall2 (fun ev fr => exists fc outcome,
                          ev = ToolCalled fc outcome /\ fr = response_part fc outcome)
          (snd out) (snd (fst out)).
Proof.
  cbv zeta. revert w. induction function_calls as [| fc rest IH]; intros w.
  - cbn. repeat split; constructor.
  - cbn [execute_function_calls].
    destruct (tool_handler (fc_name fc) (fc_args fc) w) as [w1 outcome].
    specialize (IH w1).
    destruct (execute_function_calls world tool_handler rest w1) as [[w2 frs] evs].
    cbn in *. destruct IH as (Hn & Hl & Hc & Hr).
    repeat split.
    + f_equal; [now destruct outcome | exact Hn].
    + now f_equal.
    + constructor; eauto.
    + constructor; eauto.
Qed.

End ToolResponses.

(** X6 on the run of the examples: the word annotation that survives the
    validation of segment 0. *)
Lemma X6_witness :
  exists i seg k d,
    [Examples.seg0; Examples.seg1] !! i = Some seg /\
    PDict Examples.ann_learn = PDict d /\
    Annotators.validate_annotation k d seg = true /\ Statements.accepted d seg.
Proof.
  apply (X6_output_is_validated Examples.lm_run [Examples.seg0; Examples.seg1]
           (PDict Examples.ann_learn)).
  vm_compute. right. left. reflexivity.
Defined.

(** ** Catalog: what a creation changes for the queries *)

Section CatalogMore.

Import MCPTools.

Variable LOWER : string -> string.
Variable md5_hexdigest : string -> string.

Lemma filter_snoc_false {A : Type} (f : A -> bool) (l : list A) (x : A) :
  f x = false -> List.filter f (l ++ [x]) = List.filter f l.
Proof. intros Hx. rewrite List.filter_app. cbn. rewrite Hx. apply app_nil_r. Qed.

(** X8. A unit created through [create_fine_unit] is stored as [pending],
    and the queries select [active] rows only: after a creation every
    query, for any lemma, kind, part of speech and language, returns what
    it returned before. *)
Theorem X8_created_units_are_not_candidates
    (gemini_model utcnow lemma kind pos definition lang : string)
    (video_uid : option string) (c : catalog)
    (lemma' kind' : string) (pos' : option string) (lang' : string) :
  query_fine_units LOWER lemma' kind' pos' lang'
    (Some (rows (snd (create_fine_unit md5_hexdigest gemini_model utcnow lemma kind pos
                                       definition lang video_uid c))))
  = query_fine_units LOWER lemma' kind' pos' lang' (Some (rows c)).
Proof.
  unfold create_fine_unit, insert_fine_unit.
  destruct (select_by_external_key _ c) as [existing |]; [reflexivity |].
  cbn [snd rows].
  unfold query_fine_units, _query_word_senses, _query_phrase_senses.
  destruct (String.eqb kind' "word_sense");
    [destruct pos' as [p |]; [destruct (negb (String.eqb p "")) |]
    | destruct (String.eqb kind' "phrase_sense")];
    try reflexivity.
  all: rewrite filter_snoc_false; [reflexivity |].
  all: unfold word_where, phrase_where; cbn [fu_status].
  all: change (String.eqb "pending" "active") with false.
  all: now rewrite andb_false_r.
Qed.

End CatalogMore.

(** ** Workflow: videos, finished jobs and repeated failures *)

Section WorkflowMore.

Import Persistence Workflow.

(** X9. [_get_or_create_video] returns the id of a video row that carries
    the uid; the table of jobs is not touched and the table of videos grows
    by at most one row at its end; a second call for the same uid, with
    whatever object name, returns the same id and changes nothing. *)
Theorem X9_get_or_create_video_idempotent (raw_bucket : string) (now now' : Z)
    (uid object_name object_name' : string) (db : database) :
  let out := _get_or_create_video raw_bucket now uid object_name db in
  (exists v, In v (videos (fst out)) /\ v_video_uid v = uid /\ v_id v = snd out) /\
  (exists new, videos (fst out) = videos db ++ new /\ (length new <= 1)%nat) /\
  ingest_jobs (fst out) = ingest_jobs db /\
  _get_or_create_video raw_bucket now' uid object_name' (fst out) = out.
Proof.
  cbv zeta.
  destruct (_get_or_create_video raw_bucket now uid object_name db) as [db1 id] eqn:Hout.
  cbn [fst snd]. unfold _get_or_create_video in Hout |- *.
  destruct (List.find _ (videos db)) as [row |] eqn:Hfind; injection Hout as <- <-.
  - apply find_some in Hfind as Hrow. destruct Hrow as [Hin Huid].
    apply String.eqb_eq in Huid.
    split; [eauto |]. split; [exists []; rewrite app_nil_r; auto |].
    split; [reflexivity |]. now rewrite Hfind.
  - cbn [videos ingest_jobs]. split.
    { eexists. split; [apply in_or_app; right; left; reflexivity |].
      split; reflexivity. }
    split; [eexists [_]; split; [reflexivity | cbn; auto] |].
    split; [reflexivity |].
    rewrite (find_snoc _ _ _ Hfind); [reflexivity |].
    cbn. apply String.eqb_refl.
Qed.

(** The job that the idempotency check returns is the one under the key of
    the message, and its row is in the table. *)
Lemma check_returns_the_job raw_bucket now message db db0 job :
  _check_idempotency raw_bucket now message db = (db0, inr job) ->
  job_object_key job = object_name message /\ job_etag job = etag message /\
  is_Some (ingest_jobs db0 !! (object_name message, etag message)).
Proof.
  unfold _check_idempotency.
  destruct (ingest_jobs db !! (object_name message, etag message)) as [row |] eqn:Hrow.
  - destruct (String.eqb (j_status row) "done"); [discriminate |].
    destruct (String.eqb (j_status row) "processing").
    + destruct (j_started_at row) as [started_at |].
      * destruct (within_timeout now started_at); [discriminate |].
        intros H. injection H as <- <-. cbn. rewrite lookup_insert_eq. eauto.
      * intros H. injection H as <- <-. cbn. rewrite Hrow. eauto.
    + intros H. injection H as <- <-. cbn. rewrite Hrow. eauto.
  - destruct (_get_or_create_video _ _ _ _ db) as [db1 video_id].
    intros H. injection H as <- <-. cbn. rewrite lookup_insert_eq. eauto.
Qed.

(** X10. Once [_finalize] has run for the job that the idempotency check
    returned, the job row is [done] with its finish time and no other job
    row has changed; from then on the idempotency check answers every
    redelivery of the message with "Task already completed" and changes
    nothing in the tables. *)
Theorem X10_finished_job_is_not_run_again (raw_bucket : string) (now t1 t2 : Z)
    (message : PubSubMessage) (db db0 : database) (job : IngestJob)
    (hls_path : option string) (asr_json_uri : string) :
  _check_idempotency raw_bucket now message db = (db0, inr job) ->
  let key := (object_name message, etag message) in
  let db1 := _finalize t1 t2 job hls_path asr_json_uri db0 in
  (exists row, ingest_jobs db1 !! key = Some row /\
               j_status row = "done" /\ j_finished_at row = Some t2) /\
  (forall k, k <> key -> ingest_jobs db1 !! k = ingest_jobs db0 !! k) /\
  (forall now', _check_idempotency raw_bucket now' message db1
                = (db1, inl "Task already completed")).
Proof.
  intros Hcheck. cbv zeta.
  destruct (check_returns_the_job _ _ _ _ _ _ Hcheck) as (Hkey & Hetag & [row Hrow]).
  assert (Hdone : ingest_jobs (_finalize t1 t2 job hls_path asr_json_uri db0)
                    !! (object_name message, etag message)
                  = Some (mkJobRow (j_video_uid row) (j_video_id row) "done"
                                   (j_started_at row) (Some t2) (j_retry_count row)
                                   (j_err row))).
  { unfold _finalize. cbn [ingest_jobs]. rewrite Hkey, Hetag.
    rewrite lookup_alter_eq, Hrow. reflexivity. }
  split; [eexists; split; [exact Hdone | split; reflexivity] |].
  split.
  { intros k Hk. unfold _finalize. cbn [ingest_jobs]. rewrite Hkey, Hetag.
    now rewrite lookup_alter_ne. }
  intros now'. unfold _check_idempotency at 1. rewrite Hdone. reflexivity.
Qed.

(** X11. Handling a second failure of a video changes nothing in the
    tables: the job rows that the first handling marked [error] keep the
    first error's message and finish time, and the video stays [ERROR]. *)
Theorem X11_second_failure_keeps_the_first (t1 t2 : Z) (uid : string)
    (e1 e2 : WorkflowError) (db : database) :
  fst (_handle_error t2 uid e2 (fst (_handle_error t1 uid e1 db)))
  = fst (_handle_error t1 uid e1 db).
Proof.
  unfold _handle_error. cbn [fst ingest_jobs videos video_seq]. f_equal.
  - rewrite <- map_fmap_compose. apply map_fmap_ext. intros k row _. cbn.
    destruct (String.eqb (j_video_uid row) uid) eqn:Hu;
      destruct (String.eqb (j_status row) "processing") eqn:Hs; cbn;
      rewrite ?Hu, ?Hs; cbn; reflexivity.
  - rewrite map_map. apply map_ext. intros v.
    destruct (String.eqb (v_video_uid v) uid) eqn:Hu; cbn; now rewrite Hu.
Qed.

(** X12. A second delivery of a message whose job is [processing] and was
    started less than 3600 s ago is refused with "Task already processing",
    whatever the later steps would do; the handler that then runs marks the
    job of the first delivery, still running, as [error] with that
    message. *)
Theorem X12_duplicate_delivery_fails_the_running_job (raw_bucket : string)
    (now later : Z) (steps_1_to_6 : IngestJob -> database -> database * option raised)
    (message : PubSubMessage) (db : database) (row : job_row) (started_at : Z) :
  ingest_jobs db !! (object_name message, etag message) = Some row ->
  j_status row = "processing" ->
  j_started_at row = Some started_at ->
  now - started_at < PROCESSING_TIMEOUT_SECONDS * 1000000 ->
  j_video_uid row = video_uid message ->
  let out := process_message raw_bucket now later steps_1_to_6 message db in
  snd (fst out)
  = Some (RaisedWorkflowError (IdempotencyError "Task already processing")) /\
  ingest_jobs (fst (fst out)) !! (object_name message, etag message)
  = Some (mkJobRow (video_uid message) (j_video_id row) "error" (Some started_at)
                   (Some later) (j_retry_count row) (Some "Task already processing")).
Proof.
  intros Hrow Hstatus Hstarted Hrecent Huid. cbv zeta.
  assert (Hcheck : _check_idempotency raw_bucket now message db
                   = (db, inl "Task already processing")).
  { unfold _check_idempotency. rewrite Hrow, Hstatus, Hstarted. cbn.
    unfold within_timeout.
    destruct (Z.ltb_spec (now - started_at) (PROCESSING_TIMEOUT_SECONDS * 1000000));
      [reflexivity | lia]. }
  unfold process_message. rewrite Hcheck. cbn [handled].
  unfold _handle_error. cbn [fst snd ingest_jobs].
  split; [reflexivity |].
  rewrite lookup_fmap, Hrow. cbn.
  rewrite Huid, Hstatus, Hstarted, String.eqb_refl. reflexivity.
Qed.

End WorkflowMore.

(** X10 on the first delivery of the example event into empty tables. *)
Lemma X10_witness :
  let db0 := fst (Workflow._check_idempotency "raw" 5000 Examples.event0
                    (Workflow.mkDatabase ∅ [] 1)) in
  let job := Workflow.mkIngestJob "uploads/6f8a/v.mp4" "abc" "6f8a" 1 "processing" 0 in
  let db1 := Workflow._finalize 9000 9001 job None "gs://tr/6f8a/asr.json" db0 in
  Workflow._check_idempotency "raw" 20000 Examples.event0 db1
  = (db1, inl "Task already completed").
Proof.
  cbv zeta.
  refine (proj2 (proj2
    (X10_finished_job_is_not_run_again "raw" 5000 9000 9001 Examples.event0
       (Workflow.mkDatabase ∅ [] 1) _ _ None "gs://tr/6f8a/asr.json" _)) 20000).
  unfold Workflow._check_idempotency, Examples.event0.
  cbn [Workflow.ingest_jobs Workflow.object_name Workflow.etag].
  rewrite lookup_empty. reflexivity.
Defined.

(** X12 on the example event, redelivered ten seconds after the start. *)
Lemma X12_witness :
  let db := Examples.db_with (Examples.job_in_status "processing" (Some 0)) in
  let out := Workflow.process_message "raw" 10000000 10000001 (fun _ d => (d, None))
                                      Examples.event0 db in
  snd (fst out)
  = Some (Workflow.RaisedWorkflowError
            (Workflow.IdempotencyError "Task already processing")) /\
  Workflow.ingest_jobs (fst (fst out)) !! ("uploads/6f8a/v.mp4", "abc")
  = Some (Workflow.mkJobRow "6f8a" 7 "error" (Some 0) (Some 10000001) 0
                            (Some "Task already processing")).
Proof.
  cbv zeta.
  apply (X12_duplicate_delivery_fails_the_running_job "raw" 10000000 10000001
           (fun _ d => (d, None)) Examples.event0
           (Examples.db_with (Examples.job_in_status "processing" (Some 0)))
           (Examples.job_in_status "processing" (Some 0)) 0).
  - apply lookup_singleton_eq.
  - reflexivity.
  - reflexivity.
  - reflexivity.
  - reflexivity.
Defined.

(** ** Storage: the URI check *)

Section GCSFacts.

Import Stdlib.Strings.Ascii GCS.

Lemma append_cons c s t : String c s +:+ t = String c (s +:+ t).
Proof. reflexivity. Qed.

Lemma append_nil t : "" +:+ t = t.
Proof. reflexivity. Qed.

Lemma prefix_gs rest : String.prefix "gs://" ("gs://" +:+ rest) = true.
Proof. rewrite !append_cons, append_nil. cbn. now destruct rest. Qed.

Lemma substring_all s : String.substring 0 (String.length s) s = s.
Proof. induction s as [| c s IH]; cbn; [reflexivity | now rewrite IH]. Qed.

Lemma from_5_gs rest : from_5 ("gs://" +:+ rest) = rest.
Proof.
  unfold from_5. rewrite !append_cons, append_nil. cbn.
  rewrite Nat.sub_0_r. apply substring_all.
Qed.

Lemma prefix_gs_inv uri :
  String.prefix "gs://" uri = true -> uri = "gs://" +:+ from_5 uri.
Proof.
  intros H.
  do 5 (destruct uri as [| c uri]; [discriminate H |];
        cbn [String.prefix] in H;
        destruct (ascii_dec _ c) as [<- |]; [| discriminate H]).
  change (String "g" (String "s" (String ":" (String "/" (String "/" uri)))))
    with ("gs://" +:+ uri).
  now rewrite from_5_gs.
Qed.

Lemma slash_in_cons c s :
  is_substring "/" (String c s) = Ascii.eqb c "/" || is_substring "/" s.
Proof.
  cbn [is_substring String.prefix].
  destruct (Ascii.eqb_spec c "/") as [-> | Hne];
    destruct (ascii_dec "/" _) as [Heq | Hne']; try congruence; try reflexivity.
  now destruct s.
Qed.

Lemma split_slash_1_app bucket object_name :
  is_substring "/" bucket = false ->
  split_slash_1 (bucket +:+ "/" +:+ object_name) = (bucket, Some object_name).
Proof.
  induction bucket as [| c bucket IH]; intros Hno; [reflexivity |].
  rewrite slash_in_cons in Hno. apply orb_false_iff in Hno as [Hc Hrest].
  rewrite append_cons. cbn [split_slash_1]. now rewrite Hc, (IH Hrest).
Qed.

Lemma split_slash_1_inv s : forall head tail,
  split_slash_1 s = (head, Some tail) ->
  s = head +:+ "/" +:+ tail /\ is_substring "/" head = false.
Proof.
  induction s as [| c s IH]; intros head tail; cbn; [discriminate |].
  destruct (Ascii.eqb_spec c "/") as [-> | Hne].
  - intros H. injection H as <- <-. split; reflexivity.
  - destruct (split_slash_1 s) as [h t]. intros H. injection H as <- ->.
    destruct (IH h tail eq_refl) as [-> Hno]. split; [reflexivity |].
    rewrite slash_in_cons, Hno.
    apply orb_false_iff. split; [now apply Ascii.eqb_neq | reflexivity].
Qed.

Lemma split_slash_1_some bucket object_name :
  exists head tail, split_slash_1 (bucket +:+ "/" +:+ object_name) = (head, Some tail).
Proof.
  induction bucket as [| c bucket (head & tail & IH)]; [cbn; eauto |].
  rewrite append_cons. cbn [split_slash_1].
  destruct (Ascii.eqb c "/"); [eauto |]. rewrite IH. eauto.
Qed.

(** X13. [parse_uri] returns [(bucket, object_name)] exactly for the URIs
    [gs://{bucket}/{object_name}] whose bucket name holds no slash: it
    inverts the format in which the services build their URIs, and the
    object name may hold slashes or be empty. *)
Theorem X13_parse_uri_inverts_the_uri_format (uri bucket object_name : string) :
  parse_uri uri = inl (bucket, object_name) <->
  uri = "gs://" +:+ bucket +:+ "/" +:+ object_name /\ is_substring "/" bucket = false.
Proof.
  unfold parse_uri. split.
  - destruct (String.prefix "gs://" uri) eqn:Hprefix; [| discriminate].
    cbn [negb]. destruct (split_slash_1 (from_5 uri)) as [head [tail |]] eqn:Hsplit;
      [| discriminate].
    intros H. injection H as -> ->.
    apply split_slash_1_inv in Hsplit as [Hrest Hno]. split; [| exact Hno].
    rewrite <- Hrest. now apply prefix_gs_inv.
  - intros [-> Hno]. rewrite prefix_gs, from_5_gs. cbn [negb].
    now rewrite split_slash_1_app.
Qed.

(** The existence check accepts every URI built as [gs://{bucket}/{name}]. *)
Lemma exists_accepts_built_uri blob_exists bucket object_name :
  exists found,
    exists_ blob_exists ("gs://" +:+ bucket +:+ "/" +:+ object_name) = inl found.
Proof.
  unfold exists_. rewrite prefix_gs, from_5_gs. cbn [negb].
  destruct (split_slash_1_some bucket object_name) as (head & tail & ->). eauto.
Qed.

End GCSFacts.

(** ** Transcoding: the retry loop *)

Section TranscodingFacts.

Import Transcoding Observations.

Variable raw_bucket hls_bucket : string.
Variable max_retries retry_backoff_seconds : Z.
Variable blob_exists : string -> string -> option bool.
Variable run_job : Z -> string -> string -> attempt_outcome.

Abbreviation loop := (attempts max_retries retry_backoff_seconds run_job).
Abbreviation transcode :=
  (transcode_video raw_bucket hls_bucket max_retries retry_backoff_seconds
                   blob_exists run_job).

Lemma loop_well_formed input_uri output_uri : forall remaining attempt,
  well_formed output_uri (fst (loop remaining attempt input_uri output_uri)).
Proof.
  induction remaining as [| remaining IH]; intros attempt; cbn [attempts].
  - right. cbn. eauto.
  - destruct (run_job attempt input_uri output_uri) as [| text | text].
    + left. cbn. auto.
    + destruct (attempt <? max_retries).
      * specialize (IH (attempt + 1)).
        now destruct (loop remaining (attempt + 1) input_uri output_uri).
      * right. cbn. eauto.
    + right. cbn. eauto.
Qed.

Lemma loop_attempts_made input_uri output_uri : forall remaining attempt,
  (attempts_made (snd (loop remaining attempt input_uri output_uri)) <= remaining)%nat.
Proof.
  induction remaining as [| remaining IH]; intros attempt; cbn [attempts].
  - cbn. lia.
  - destruct (run_job attempt input_uri output_uri) as [| text | text];
      try (cbn; lia).
    destruct (attempt <? max_retries); [| cbn; lia].
    specialize (IH (attempt + 1)).
    destruct (loop remaining (attempt + 1) input_uri output_uri) as [r tr].
    unfold attempts_made in *. cbn in *. lia.
Qed.

(** X14. [transcode_video] never raises: the URI it hands to the existence
    check always passes the check, and every failure of the transcoder is
    turned into a result. The result is either a success carrying the
    manifest path under [gs://{hls_bucket}/encoded/{video_uid}/], or a
    failure with a message and no path; and at most [max_retries] attempts
    are made. *)
Theorem X14_transcoding_never_raises (video_uid input_object_name : string) :
  exists r,
    fst (transcode video_uid input_object_name) = inl r /\
    well_formed ("gs://" +:+ hls_bucket +:+ "/encoded/" +:+ video_uid +:+ "/") r /\
    (attempts_made (snd (transcode video_uid input_object_name))
     <= Z.to_nat max_retries)%nat.
Proof.
  unfold transcode_video.
  destruct (exists_accepts_built_uri blob_exists raw_bucket input_object_name)
    as [found ->].
  destruct found.
  - pose proof (loop_well_formed
                  ("gs://" +:+ raw_bucket +:+ "/" +:+ input_object_name)
                  ("gs://" +:+ hls_bucket +:+ "/encoded/" +:+ video_uid +:+ "/")
                  (Z.to_nat max_retries) 1) as Hwf.
    pose proof (loop_attempts_made
                  ("gs://" +:+ raw_bucket +:+ "/" +:+ input_object_name)
                  ("gs://" +:+ hls_bucket +:+ "/encoded/" +:+ video_uid +:+ "/")
                  (Z.to_nat max_retries) 1) as Hn.
    destruct (loop _ 1 _ _) as [r tr]. exists r. cbn [fst snd] in *. auto.
  - eexists. split; [reflexivity |]. split; [right; cbn; eauto | cbn; lia].
Qed.

Lemma loop_retries input_uri output_uri k : forall n r attempt,
  attempt = k - Z.of_nat n ->
  k <= max_retries ->
  (forall j, attempt <= j < k ->
             exists text, run_job j input_uri output_uri = RaisedTranscoderError text) ->
  loop (n + S r) attempt input_uri output_uri
  = (fst (loop (S r) k input_uri output_uri),
     flat_map (fun j => [Attempted j; Slept (retry_backoff_seconds * 2 ^ (j - 1))])
              (seqZ attempt (Z.of_nat n))
     ++ snd (loop (S r) k input_uri output_uri)).
Proof.
  induction n as [| n IH]; intros r attempt Hattempt Hk Hfail.
  - replace attempt with k by lia. cbn [Nat.add].
    now destruct (loop (S r) k input_uri output_uri).
  - destruct (Hfail attempt) as [text Htext]; [lia |].
    change (S n + S r)%nat with (S (n + S r)). cbn [attempts]. rewrite Htext.
    destruct (Z.ltb_spec attempt max_retries) as [_ | Hge]; [| lia].
    rewrite (IH r (attempt + 1)); [| lia | lia | intros j Hj; apply Hfail; lia].
    rewrite (seqZ_cons attempt (Z.of_nat (S n))) by lia.
    replace (Z.pred (Z.of_nat (S n))) with (Z.of_nat n) by lia.
    replace (Z.succ attempt) with (attempt + 1) by lia.
    reflexivity.
Qed.

Lemma seconds_slept_schedule k : forall n attempt,
  1 <= attempt ->
  seconds_slept
    (flat_map (fun j => [Attempted j; Slept (retry_backoff_seconds * 2 ^ (j - 1))])
              (seqZ attempt (Z.of_nat n)) ++ [Attempted k])
  = retry_backoff_seconds * 2 ^ (attempt - 1) * (2 ^ Z.of_nat n - 1).
Proof.
  induction n as [| n IH]; intros attempt Hattempt.
  - change (seqZ attempt (Z.of_nat 0)) with (@nil Z).
    change (2 ^ Z.of_nat 0) with 1. cbn [flat_map app]. unfold seconds_slept.
    cbn [fold_right]. ring.
  - rewrite (seqZ_cons attempt (Z.of_nat (S n))) by lia.
    replace (Z.pred (Z.of_nat (S n))) with (Z.of_nat n) by lia.
    replace (Z.succ attempt) with (attempt + 1) by lia.
    cbn [flat_map app]. unfold seconds_slept at 1. cbn [fold_right].
    change (fold_right _ 0 ?l) with (seconds_slept l).
    rewrite (IH (attempt + 1)) by lia.
    replace (attempt + 1 - 1) with (Z.succ (attempt - 1)) by lia.
    rewrite Nat2Z.inj_succ, !Z.pow_succ_r by lia. ring.
Qed.

(** X15. When the input exists, the attempts before attempt [k] raise
    [TranscoderError], and attempt [k] is the last one allowed or ends in
    another way, then exactly the attempts 1 to [k] are made, with a sleep
    of [retry_backoff_seconds * 2 ^ (j - 1)] seconds after each attempt [j]
    before [k], that is [retry_backoff_seconds * (2 ^ (k - 1) - 1)] seconds
    in all; the result is the one of attempt [k]: a success, a failure with
    the text of the last [TranscoderError], or a failure "Unexpected
    error: ..." . *)
Theorem X15_transcoding_backoff (video_uid input_object_name : string) (k : Z) :
  let input_uri := "gs://" +:+ raw_bucket +:+ "/" +:+ input_object_name in
  let output_uri := "gs://" +:+ hls_bucket +:+ "/encoded/" +:+ video_uid +:+ "/" in
  GCS.exists_ blob_exists input_uri = inl true ->
  1 <= k <= max_retries ->
  (forall j, 1 <= j < k ->
             exists text, run_job j input_uri output_uri = RaisedTranscoderError text) ->
  (k = max_retries \/
   forall text, run_job k input_uri output_uri <> RaisedTranscoderError text) ->
  let out := transcode video_uid input_object_name in
  snd out = transcoding_schedule retry_backoff_seconds k /\
  seconds_slept (snd out) = retry_backoff_seconds * (2 ^ (k - 1) - 1) /\
  fst out =
    inl match run_job k input_uri output_uri with
        | JobDone =>
            mkTranscodeResult (Some (output_uri +:+ "manifest.m3u8")) "success" None
        | RaisedTranscoderError text => failed text
        | RaisedException text => failed ("Unexpected error: " +:+ text)
        end.
Proof.
  cbv zeta. intros Hexists Hk Hfail Hlast.
  unfold transcode_video. rewrite Hexists.
  replace (Z.to_nat max_retries)
    with (Z.to_nat (k - 1) + S (Z.to_nat (max_retries - k)))%nat by lia.
  rewrite (loop_retries _ _ k (Z.to_nat (k - 1)) (Z.to_nat (max_retries - k)) 1);
    [| lia | lia | intros j Hj; apply Hfail; lia].
  assert (Hend :
    loop (S (Z.to_nat (max_retries - k))) k
         ("gs://" +:+ raw_bucket +:+ "/" +:+ input_object_name)
         ("gs://" +:+ hls_bucket +:+ "/encoded/" +:+ video_uid +:+ "/")
    = (match run_job k ("gs://" +:+ raw_bucket +:+ "/" +:+ input_object_name)
                     ("gs://" +:+ hls_bucket +:+ "/encoded/" +:+ video_uid +:+ "/") with
       | JobDone =>
           mkTranscodeResult
             (Some (("gs://" +:+ hls_bucket +:+ "/encoded/" +:+ video_uid +:+ "/")
                    +:+ "manifest.m3u8")) "success" None
       | RaisedTranscoderError text => failed text
       | RaisedException text => failed ("Unexpected error: " +:+ text)
       end, [Attempted k])).
  { cbn [attempts].
    destruct (run_job k _ _) as [| text | text]; try reflexivity.
    destruct (Z.ltb_spec k max_retries) as [Hlt | _]; [| reflexivity].
    destruct Hlast as [-> | Hother]; [lia | now destruct (Hother text)]. }
  rewrite Hend. cbn [fst snd].
  replace (Z.of_nat (Z.to_nat (k - 1))) with (k - 1) by lia.
  split; [reflexivity |]. split; [| reflexivity].
  replace (k - 1) with (Z.of_nat (Z.to_nat (k - 1))) at 1 by lia.
  rewrite (seconds_slept_schedule k (Z.to_nat (k - 1)) 1) by lia.
  replace (Z.of_nat (Z.to_nat (k - 1))) with (k - 1) by lia.
  change (2 ^ (1 - 1)) with 1. ring.
Qed.

End TranscodingFacts.

(** X15 with the default configuration (three attempts, one second): two
    failed attempts, then a success; the service sleeps 1 s and 2 s. *)
Lemma X15_witness :
  let run_job (j : Z) (input_uri output_uri : string) :=
    if j <? 3 then Transcoding.RaisedTranscoderError "job failed"
    else Transcoding.JobDone in
  let out :=
    Transcoding.transcode_video "raw" "hls" 3 1 (fun _ _ => Some true) run_job
                                "6f8a" "uploads/6f8a/v.mp4" in
  snd out = Observations.transcoding_schedule 1 3 /\
  Observations.seconds_slept (snd out) = 3 /\
  fst out = inl (Transcoding.mkTranscodeResult
                   (Some "gs://hls/encoded/6f8a/manifest.m3u8") "success" None).
Proof.
  cbv zeta.
  apply (X15_transcoding_backoff "raw" "hls" 3 1 (fun _ _ => Some true)
           (fun j _ _ => if j <? 3 then Transcoding.RaisedTranscoderError "job failed"
                         else Transcoding.JobDone)
           "6f8a" "uploads/6f8a/v.mp4" 3).
  - reflexivity.
  - lia.
  - intros j Hj. exists "job failed".
    destruct (Z.ltb_spec j 3); [reflexivity | lia].
  - left. reflexivity.
Defined.

(** ** Speech recognition: the retry loop *)

Section ASRFacts.

Import ASR Observations.

Variable transcript_bucket : string.
Variable max_retries retry_backoff_seconds : Z.
Variable predict : Z -> string -> (string * dict) + exn.
Variable store_and_parse : Z -> string -> string -> pyval -> list Segment + exn.

Abbreviation once := (try_once transcript_bucket predict store_and_parse).
Abbreviation asr_loop :=
  (attempts transcript_bucket max_retries retry_backoff_seconds predict store_and_parse).
Abbreviation whisperx :=
  (run_whisperx transcript_bucket max_retries retry_backoff_seconds predict
                store_and_parse).

Lemma once_transcript attempt video_uid input_object_name result :
  once attempt video_uid input_object_name = inl result ->
  transcript_of transcript_bucket video_uid result.
Proof.
  unfold try_once.
  destruct (predict attempt input_object_name) as [[prediction_id prediction] | e];
    [| discriminate].
  destruct (get "output" prediction) as [output |]; [| discriminate].
  destruct (negb (truthy output)); [discriminate |].
  destruct (store_and_parse attempt _ _ output) as [segs | e]; [| discriminate].
  intros H. injection H as <-. repeat split.
Qed.

Lemma asr_loop_transcript video_uid input_object_name result :
  forall remaining attempt,
    fst (asr_loop remaining attempt video_uid input_object_name) = inl result ->
    transcript_of transcript_bucket video_uid result.
Proof.
  induction remaining as [| remaining IH]; intros attempt; cbn [attempts].
  - discriminate.
  - destruct (once attempt video_uid input_object_name) as [r | e] eqn:Honce.
    + cbn. intros H. injection H as <-. eapply once_transcript, Honce.
    + destruct (retried e); [| discriminate].
      destruct (attempt <? max_retries); [| discriminate].
      specialize (IH (attempt + 1)).
      now destruct (asr_loop remaining (attempt + 1) video_uid input_object_name).
Qed.

Lemma asr_loop_count video_uid input_object_name : forall remaining attempt,
  Z.of_nat remaining = max_retries + 1 - attempt ->
  let tr := snd (asr_loop remaining attempt video_uid input_object_name) in
  (asr_attempts_made tr <= remaining)%nat /\
  asr_sleeps tr = pred (asr_attempts_made tr) /\
  (remaining <> 0%nat -> asr_attempts_made tr <> 0%nat).
Proof.
  induction remaining as [| remaining IH]; intros attempt Hinv; cbv zeta;
    cbn [attempts].
  - cbn. repeat split; lia.
  - destruct (once attempt video_uid input_object_name) as [r | e];
      [cbn; repeat split; lia |].
    destruct (retried e); [| cbn; repeat split; lia].
    destruct (Z.ltb_spec attempt max_retries) as [Hlt | Hge];
      [| cbn; repeat split; lia].
    specialize (IH (attempt + 1)). cbv zeta in IH.
    destruct (asr_loop remaining (attempt + 1) video_uid input_object_name) as [r tr].
    unfold asr_attempts_made, asr_sleeps in *. cbn in *.
    destruct IH as (Hle & Hsleeps & Hpos); [lia |].
    repeat split; lia.
Qed.

(** X16. Whatever Replicate and the bucket do, [run_whisperx] makes at
    most [max_retries] attempts and sleeps exactly once between two
    consecutive attempts, never after the last one; with [max_retries] at
    0 (or below) it makes no attempt at all and raises "Max retries
    exceeded". Every
    result it returns names [asr.json] and [subs.vtt] under
    [gs://{transcript_bucket}/{video_uid}/] and lasts until the end of its
    last segment (0.0 when there is none). *)
Theorem X16_asr_attempts_are_bounded (video_uid input_object_name : string) :
  let out := whisperx video_uid input_object_name in
  (asr_attempts_made (snd out) <= Z.to_nat max_retries)%nat /\
  asr_sleeps (snd out) = pred (asr_attempts_made (snd out)) /\
  (max_retries <= 0 <-> asr_attempts_made (snd out) = 0%nat) /\
  (max_retries <= 0 -> out = (inr (MaxRetriesExceeded max_retries), [])) /\
  (forall result, fst out = inl result ->
                  transcript_of transcript_bucket video_uid result).
Proof.
  cbv zeta. unfold run_whisperx.
  destruct (Z.le_gt_cases max_retries 0) as [Hle | Hgt].
  - replace (Z.to_nat max_retries) with 0%nat by lia. cbn.
    repeat split; try lia; try reflexivity; discriminate.
  - destruct (asr_loop_count video_uid input_object_name (Z.to_nat max_retries) 1)
      as (Hn & Hsleeps & Hpos); [lia |].
    split; [exact Hn |]. split; [exact Hsleeps |]. split; [| split].
    + split; [lia |]. intros H0. exfalso. apply Hpos; [lia | exact H0].
    + lia.
    + intros result. apply asr_loop_transcript.
Qed.

Lemma asr_loop_retries video_uid input_object_name k : forall n r attempt,
  attempt = k - Z.of_nat n ->
  k <= max_retries ->
  (forall j, attempt <= j < k ->
             exists e, once j video_uid input_object_name = inr e /\ retried e = true) ->
  asr_loop (n + S r) attempt video_uid input_object_name
  = (fst (asr_loop (S r) k video_uid input_object_name),
     flat_map (fun j => [Attempted j; Slept (retry_backoff_seconds * 2 ^ (j - 1))])
              (seqZ attempt (Z.of_nat n))
     ++ snd (asr_loop (S r) k video_uid input_object_name)).
Proof.
  induction n as [| n IH]; intros r attempt Hattempt Hk Hfail.
  - replace attempt with k by lia. cbn [Nat.add].
    now destruct (asr_loop (S r) k video_uid input_object_name).
  - destruct (Hfail attempt) as (e & He & Hretried); [lia |].
    change (S n + S r)%nat with (S (n + S r)). cbn [attempts]. rewrite He, Hretried.
    destruct (Z.ltb_spec attempt max_retries) as [_ | Hge]; [| lia].
    rewrite (IH r (attempt + 1)); [| lia | lia | intros j Hj; apply Hfail; lia].
    rewrite (seqZ_cons attempt (Z.of_nat (S n))) by lia.
    replace (Z.pred (Z.of_nat (S n))) with (Z.of_nat n) by lia.
    replace (Z.succ attempt) with (attempt + 1) by lia.
    reflexivity.
Qed.

(** X17. Only a [ReplicateError] or a [GCSError] leads to another attempt.
    When the attempts before attempt [k] raise one of these, and attempt
    [k] is the last one allowed or ends in another way, then exactly the
    attempts 1 to [k] are made, with the doubling sleeps between them, and
    attempt [k] decides: its transcript is returned; a [ReplicateError] or
    [GCSError] on the last allowed attempt raises "ASR failed after
    {max_retries} retries"; anything else, an empty output included, raises
    "Unexpected ASR error" at once, whatever attempts remain. *)
Theorem X17_asr_retries_only_service_errors (video_uid input_object_name : string)
    (k : Z) :
  1 <= k <= max_retries ->
  (forall j, 1 <= j < k ->
             exists e, once j video_uid input_object_name = inr e /\ retried e = true) ->
  (k = max_retries \/
   forall e, once k video_uid input_object_name = inr e -> retried e = false) ->
  let out := whisperx video_uid input_object_name in
  snd out = asr_schedule retry_backoff_seconds k /\
  fst out =
    match once k video_uid input_object_name with
    | inl result => inl result
    | inr e =>
        inr (if retried e then FailedAfterRetries max_retries e
             else UnexpectedASRError e)
    end.
Proof.
  cbv zeta. intros Hk Hfail Hlast. unfold run_whisperx.
  replace (Z.to_nat max_retries)
    with (Z.to_nat (k - 1) + S (Z.to_nat (max_retries - k)))%nat by lia.
  rewrite (asr_loop_retries _ _ k (Z.to_nat (k - 1)) (Z.to_nat (max_retries - k)) 1);
    [| lia | lia | intros j Hj; apply Hfail; lia].
  assert (Hend :
    asr_loop (S (Z.to_nat (max_retries - k))) k video_uid input_object_name
    = (match once k video_uid input_object_name with
       | inl result => inl result
       | inr e =>
           inr (if retried e then FailedAfterRetries max_retries e
                else UnexpectedASRError e)
       end, [Attempted k])).
  { cbn [attempts].
    destruct (once k video_uid input_object_name) as [result | e] eqn:Honce;
      [reflexivity |].
    destruct (retried e) eqn:Hretried; [| reflexivity].
    destruct (Z.ltb_spec k max_retries) as [Hlt | _]; [| reflexivity].
    destruct Hlast as [-> | Hother]; [lia |].
    rewrite (Hother e eq_refl) in Hretried. discriminate. }
  rewrite Hend. cbn [fst snd].
  replace (Z.of_nat (Z.to_nat (k - 1))) with (k - 1) by lia.
  split; reflexivity.
Qed.

End ASRFacts.

(** X17 on a prediction that comes back without output on the first of
    three attempts: one attempt, no sleep, and the unexpected-error
    failure. *)
Lemma X17_witness :
  let predict (j : Z) (input_object_name : string)
    : (string * dict) + ASR.exn := inl ("p1", [("status", PStr "succeeded")]) in
  let out :=
    ASR.run_whisperx "transcripts" 3 1 predict (fun _ _ _ _ => inl [])
                     "6f8a" "uploads/6f8a/v.mp4" in
  snd out = Observations.asr_schedule 1 1 /\
  fst out = inr (ASR.UnexpectedASRError (ASR.EmptyOutput "p1")).
Proof.
  cbv zeta.
  apply (X17_asr_retries_only_service_errors "transcripts" 3 1
           (fun _ _ => inl ("p1", [("status", PStr "succeeded")]))
           (fun _ _ _ _ => inl []) "6f8a" "uploads/6f8a/v.mp4" 1).
  - lia.
  - intros j Hj. lia.
  - right. intros e H. injection H as <-. reflexivity.
Defined.
